(** * process_events.py: the event reconciliation pipeline

    A shallow embedding of [src/process_events.py]: the normalizer
    ([clean_data]), the store ([load_from_file], the identity-keyed
    dictionary of [main], [save_to_file]), the calendar renderer
    ([create_ics_file]) and the orchestration ([main]).

    Python values are the values [json.loads] produces.  Exceptions are
    explicit: every operation that can raise returns a [result].  The two
    files the program touches live in a file system that is threaded through
    the effectful functions.  The [json] and [ics] libraries are interfaces
    (type classes): the program is verified for every implementation. *)

From Stdlib Require Import List String Ascii ZArith Lia Bool PeanoNat.
Import ListNotations.

Set Warnings "-register-all".
Local Open Scope string_scope.
Local Open Scope Z_scope.

(** ** Python values *)

(** The values of a decoded JSON document.  A float is the dyadic number
    [m * 2^e], which covers every finite double; [NaN] and the infinities,
    which are not JSON, are left out.  A dict keeps its items in insertion
    order; its keys are strings, as in every decoded JSON object. *)
Inductive value : Type :=
| PNone
| PBool (b : bool)
| PInt (z : Z)
| PFloat (m e : Z)
| PStr (s : string)
| PList (items : list value)
| PDict (items : list (string * value)).

(** The exceptions the program can meet. *)
Inductive exn : Type :=
| JSONDecodeError
| IOError
| UnicodeDecodeError
| UnicodeEncodeError
| RecursionError
| TypeError
| AttributeError
| KeyError.

Inductive result (A : Type) : Type :=
| Ok (a : A)
| Raise (e : exn).
Arguments Ok {A} a.
Arguments Raise {A} e.

Definition rbind {A B} (r : result A) (k : A -> result B) : result B :=
  match r with
  | Ok a => k a
  | Raise e => Raise e
  end.

Declare Scope py_scope.
Delimit Scope py_scope with py.
Notation "x <- r ;; k" := (rbind r (fun x => k))
  (at level 61, r at next level, right associativity) : py_scope.
Notation "' pat <- r ;; k" := (rbind r (fun x => match x with pat => k end))
  (at level 61, pat pattern, r at next level, right associativity) : py_scope.
Local Open Scope py_scope.

(** [bool(v)]: [None], [False], zero, the empty string, list and dict are
    false. *)
Definition truthy (v : value) : bool :=
  match v with
  | PNone => false
  | PBool b => b
  | PInt z => negb (z =? 0)
  | PFloat m _ => negb (m =? 0)
  | PStr s => negb (s =? "")%string
  | PList l => match l with [] => false | _ => true end
  | PDict d => match d with [] => false | _ => true end
  end.

(** *** Strings *)

Fixpoint prefix_of (p s : string) : bool :=
  match p, s with
  | EmptyString, _ => true
  | String a p', String b s' => (a =? b)%char && prefix_of p' s'
  | String _ _, EmptyString => false
  end.

(** [p in s] for two strings. *)
Fixpoint substring_of (p s : string) : bool :=
  prefix_of p s ||
  match s with
  | EmptyString => false
  | String _ s' => substring_of p s'
  end.

(** [s.replace(old, new)] for a non-empty [old]: the occurrences are taken
    from the left and do not overlap.  [skip] counts the characters of a
    replaced occurrence still to be dropped. *)
Fixpoint replace_from (old new : string) (skip : nat) (s : string) : string :=
  match s with
  | EmptyString => EmptyString
  | String c s' =>
      match skip with
      | S k => replace_from old new k s'
      | O =>
          if prefix_of old s
          then (new ++ replace_from old new (String.length old - 1) s')%string
          else String c (replace_from old new 0 s')
      end
  end.

Definition str_replace (old new s : string) : string :=
  replace_from old new 0 s.

(** A [str] is held as its UTF-8 bytes.  The white space [str.strip()]
    removes is then one, two or three bytes long:
    U+0009 to U+000D and U+001C to U+0020;
    U+0085 and U+00A0 (C2 85, C2 A0);
    U+1680 (E1 9A 80), U+2000 to U+200A (E2 80 80 to E2 80 8A), U+2028,
    U+2029 and U+202F (E2 80 A8, A9, AF), U+205F (E2 81 9F) and U+3000
    (E3 80 80). *)
Definition space1 (c1 : ascii) : bool :=
  let a := nat_of_ascii c1 in
  ((9 <=? a) && (a <=? 13) || (28 <=? a) && (a <=? 32))%nat.

Definition space2 (c1 c2 : ascii) : bool :=
  let a := nat_of_ascii c1 in
  let b := nat_of_ascii c2 in
  ((a =? 194) && ((b =? 133) || (b =? 160)))%nat.

Definition space3 (c1 c2 c3 : ascii) : bool :=
  let a := nat_of_ascii c1 in
  let b := nat_of_ascii c2 in
  let c := nat_of_ascii c3 in
  ((a =? 225) && (b =? 154) && (c =? 128)
   || (a =? 226) && (b =? 128)
      && ((128 <=? c) && (c <=? 138) || (c =? 168) || (c =? 169) || (c =? 175))
   || (a =? 226) && (b =? 129) && (c =? 159)
   || (a =? 227) && (b =? 128) && (c =? 128))%nat.

Fixpoint lstrip (s : string) : string :=
  match s with
  | EmptyString => EmptyString
  | String c1 s1 =>
      if space1 c1 then lstrip s1
      else
        match s1 with
        | EmptyString => s
        | String c2 s2 =>
            if space2 c1 c2 then lstrip s2
            else
              match s2 with
              | EmptyString => s
              | String c3 s3 => if space3 c1 c2 c3 then lstrip s3 else s
              end
        end
  end.

(** The string is made of white space only. *)
Definition blank (s : string) : bool :=
  match lstrip s with
  | EmptyString => true
  | String _ _ => false
  end.

(** A byte is kept when something other than white space follows or
    stands at it. *)
Fixpoint rstrip (s : string) : string :=
  match s with
  | EmptyString => EmptyString
  | String c s' => if blank s then EmptyString else String c (rstrip s')
  end.

Definition str_strip (s : string) : string := rstrip (lstrip s).

(** *** Operations on values *)

Fixpoint assoc (k : string) (d : list (string * value)) : option value :=
  match d with
  | [] => None
  | (k', v) :: d' => if (k =? k')%string then Some v else assoc k d'
  end.

(** [x.get(key, default)]: only a dict has the method. *)
Definition py_get (x : value) (key : string) (default : value) : result value :=
  match x with
  | PDict d => Ok (match assoc key d with Some v => v | None => default end)
  | _ => Raise AttributeError
  end.

(** [x[key]] for a string [key]. *)
Definition py_getitem (x : value) (key : string) : result value :=
  match x with
  | PDict d => match assoc key d with Some v => Ok v | None => Raise KeyError end
  | _ => Raise TypeError
  end.

Definition is_str (key : string) (v : value) : bool :=
  match v with
  | PStr s => (s =? key)%string
  | _ => false
  end.

(** [key in x] for a string [key]: a key of a dict, an element of a list, a
    substring of a string; the other values are not containers. *)
Definition py_in (key : string) (x : value) : result bool :=
  match x with
  | PDict d => Ok (match assoc key d with Some _ => true | None => false end)
  | PList l => Ok (existsb (is_str key) l)
  | PStr s => Ok (substring_of key s)
  | _ => Raise TypeError
  end.

Fixpoint chars (s : string) : list value :=
  match s with
  | EmptyString => []
  | String c s' => PStr (String c EmptyString) :: chars s'
  end.

(** [for item in x]: the elements of a list, the keys of a dict, the
    characters of a string. *)
Definition py_iter (x : value) : result (list value) :=
  match x with
  | PList l => Ok l
  | PDict d => Ok (map (fun kv => PStr (fst kv)) d)
  | PStr s => Ok (chars s)
  | _ => Raise TypeError
  end.

(** [x.replace(old, new)] and [x.strip()]: string methods. *)
Definition py_replace (x : value) (old new : string) : result value :=
  match x with
  | PStr s => Ok (PStr (str_replace old new s))
  | _ => Raise AttributeError
  end.

Definition py_strip (x : value) : result value :=
  match x with
  | PStr s => Ok (PStr (str_strip s))
  | _ => Raise AttributeError
  end.

(** ** The libraries

    [json.loads] either decodes its argument or raises.  [json.dump]
    streams the text of a value into the open file and may raise on the way
    (a string with a lone surrogate cannot be encoded): [json_dumps] is the
    text that reaches the file, [json_dump_error] the exception that cut it
    short, if any.  The program relies on nothing else. *)
Class JsonLib : Type := {
  json_loads : string -> result value;
  json_dumps : value -> string;
  json_dump_error : value -> option exn
}.

(** The part of [ics] the renderer uses: a fresh [Event()], the property
    setters (each may reject its argument), the hash and the equality of
    events, on which the set [cal.events] rests, and the lines of a
    calendar.  The lines are made when [f.writelines(cal)] asks for them,
    after the file is opened, and this can raise too (a property that was
    accepted by its setter and cannot be written): [calendar_lines] is the
    text that reaches the file, [calendar_error] the exception, if any. *)
Class IcsLib : Type := {
  vevent : Type;
  new_event : vevent;
  set_uid : value -> vevent -> result vevent;
  set_name : value -> vevent -> result vevent;
  set_begin : value -> vevent -> result vevent;
  set_end : value -> vevent -> result vevent;
  set_description : value -> vevent -> result vevent;
  set_url : value -> vevent -> result vevent;
  event_hash : vevent -> result Z;
  event_eqb : vevent -> vevent -> bool;
  calendar_lines : list vevent -> string;
  calendar_error : list vevent -> option exn
}.

(** ** The store dictionary

    [events_dict] is keyed by the [id] of an event.  A key is hashed and
    compared as Python does it: [True], [1] and [1.0] are one key, a list or
    a dict is unhashable.  [hkey] is the class of a key under [==]. *)
Inductive hkey : Type :=
| HNone
| HNum (m e : Z)
| HStr (s : string).

Fixpoint strip_twos (p : positive) (e : Z) : positive * Z :=
  match p with
  | xO q => strip_twos q (e + 1)
  | _ => (p, e)
  end.

(** The number [m * 2^e] with an odd [m], or zero. *)
Definition dyadic (m e : Z) : hkey :=
  match m with
  | Z0 => HNum 0 0
  | Zpos p => let (q, e') := strip_twos p e in HNum (Zpos q) e'
  | Zneg p => let (q, e') := strip_twos p e in HNum (Zneg q) e'
  end.

Definition py_hash (v : value) : result hkey :=
  match v with
  | PNone => Ok HNone
  | PBool b => Ok (HNum (if b then 1 else 0) 0)
  | PInt z => Ok (dyadic z 0)
  | PFloat m e => Ok (dyadic m e)
  | PStr s => Ok (HStr s)
  | PList _ | PDict _ => Raise TypeError
  end.

Definition hkey_eqb (a b : hkey) : bool :=
  match a, b with
  | HNone, HNone => true
  | HNum m e, HNum m' e' => (m =? m') && (e =? e')
  | HStr s, HStr s' => (s =? s')%string
  | _, _ => false
  end.

(** A dict in insertion order. *)
Definition store : Type := list (hkey * value).

Fixpoint store_get (k : hkey) (d : store) : option value :=
  match d with
  | [] => None
  | (k', v) :: d' => if hkey_eqb k k' then Some v else store_get k d'
  end.

(** [k in d] *)
Definition store_mem (k : hkey) (d : store) : bool :=
  match store_get k d with
  | Some _ => true
  | None => false
  end.

(** [d[k] = v]: an existing key keeps its place, a new one goes last. *)
Fixpoint store_set (k : hkey) (v : value) (d : store) : store :=
  match d with
  | [] => [(k, v)]
  | (k', v') :: d' =>
      if hkey_eqb k k' then (k', v) :: d' else (k', v') :: store_set k v d'
  end.

(** [list(d.values())] *)
Definition store_values (d : store) : list value := map snd d.

Definition store_keys (d : store) : list hkey := map fst d.

(** ** The file system *)

(** What a regular file holds: text, or bytes that are not UTF-8. *)
Inductive payload : Type :=
| Text (text : string)
| Bytes.

(** A path: nothing there; something [open] fails on in every mode (a
    directory, say); or a regular file, with what it holds and whether this
    process may read it and may write it. *)
Inductive file : Type :=
| Absent
| Unopenable
| Regular (held : payload) (readable writable : bool).

(** A text file the process may read and write. *)
Definition Content (text : string) : file := Regular (Text text) true true.

(** A file whose bytes are not UTF-8. *)
Definition Undecodable : file := Regular Bytes true true.

Definition filesystem : Type := string -> file.

(** [open(name, 'w')] succeeds: the file is created, or it may be
    written. *)
Definition can_write (f : file) : bool :=
  match f with
  | Absent => true
  | Unopenable => false
  | Regular _ _ writable => writable
  end.

(** [open(name, 'w')] succeeds and what is written can be read back. *)
Definition rewritable (f : file) : bool :=
  match f with
  | Absent => true
  | Unopenable => false
  | Regular _ readable writable => readable && writable
  end.

(** The file after [text] was written to it: a new file can be read and
    written, an old one keeps its permissions. *)
Definition written (text : string) (f : file) : file :=
  match f with
  | Regular _ readable writable => Regular (Text text) readable writable
  | _ => Content text
  end.

Definition fs_write (name text : string) (fs : filesystem) : filesystem :=
  fun n => if (n =? name)%string then written text (fs name) else fs n.

(** [os.path.exists] *)
Definition path_exists (name : string) (fs : filesystem) : bool :=
  match fs name with
  | Absent => false
  | _ => true
  end.

(** [open(name, 'r', encoding='utf-8')] followed by [f.read()] *)
Definition read_text (name : string) (fs : filesystem) : result string :=
  match fs name with
  | Absent | Unopenable => Raise IOError
  | Regular _ false _ => Raise IOError
  | Regular Bytes true _ => Raise UnicodeDecodeError
  | Regular (Text text) true _ => Ok text
  end.

(** Effectful code: it may raise, and it leaves a file system either way. *)
Definition io (A : Type) : Type := filesystem -> result A * filesystem.

Definition io_ret {A} (a : A) : io A := fun fs => (Ok a, fs).

Definition io_bind {A B} (m : io A) (k : A -> io B) : io B :=
  fun fs =>
    match m fs with
    | (Ok a, fs') => k a fs'
    | (Raise e, fs') => (Raise e, fs')
    end.

Definition io_lift {A} (r : result A) : io A := fun fs => (r, fs).

Declare Scope io_scope.
Delimit Scope io_scope with io.
Notation "x <- m ;; k" := (io_bind m (fun x => k))
  (at level 61, m at next level, right associativity) : io_scope.
Notation "m ;; k" := (io_bind m (fun _ => k))
  (at level 61, right associativity) : io_scope.

Definition CLEANED_DATA_FILE : string := "cleaned_data.json".
Definition ICS_FILE : string := "events.ics".

(** [with open(name, 'w', encoding='utf-8') as f:] followed by a body that
    writes into [f].  Opening fails, or it empties the file; then [text] is
    what the body got into the file, and [error] what it raised, if it did:
    the file keeps the text either way. *)
Definition write_text (name text : string) (error : option exn) : io unit :=
  fun fs =>
    if can_write (fs name)
    then (match error with
          | None => Ok tt
          | Some e => Raise e
          end, fs_write name text fs)
    else (Raise IOError, fs).

(** [try: body except (caught): handler] *)
Definition try_except {A} (body : result A) (caught : exn -> bool)
    (handler : result A) : result A :=
  match body with
  | Ok a => Ok a
  | Raise e => if caught e then handler else Raise e
  end.

Section Program.

Context {json : JsonLib} {ics : IcsLib}.

(** *** Store: load and save *)

Definition save_to_file (data : value) (filename : string) : io unit :=
  write_text filename (json_dumps data) (json_dump_error data).

Definition load_from_file (filename : string) : io value :=
  fun fs =>
    if negb (path_exists filename fs) then (Ok (PList []), fs)
    else
      (try_except
         (content <- read_text filename fs ;;
          if (content =? "")%string then Ok (PList [])
          else json_loads content)
         (fun e => match e with JSONDecodeError | IOError => true | _ => false end)
         (Ok (PList [])),
       fs).

(** *** Normalizer *)

(** [json.loads(field_value_str)], falling back to the value itself.  An
    argument that is not a string is a [TypeError] of [json.loads]. *)
Definition decode_field (field_value_str : value) : result value :=
  try_except
    (match field_value_str with
     | PStr s => json_loads s
     | _ => Raise TypeError
     end)
    (fun e => match e with JSONDecodeError | TypeError => true | _ => false end)
    (Ok field_value_str).

(** The loop over [post['fields']]; the state is [begin] and [end]. *)
Fixpoint scan_fields (fields : list value) (be : value * value)
  : result (value * value) :=
  match fields with
  | [] => Ok be
  | field :: rest =>
      field_key <- py_get field "key" PNone ;;
      field_value_str <- py_get field "value" PNone ;;
      match field_value_str with
      | PNone => scan_fields rest be
      | _ =>
          field_value <- decode_field field_value_str ;;
          if is_str "start_date" field_key
          then scan_fields rest (field_value, snd be)
          else if is_str "end_date" field_key
          then scan_fields rest (fst be, field_value)
          else scan_fields rest be
      end
  end.

(** One turn of the loop over the posts: the event, when it is kept. *)
Definition clean_post (post : value) : result (option value) :=
  id <- py_get post "id" PNone ;;
  title <- py_get post "title" (PStr "No Title") ;;
  title <- py_replace title "(Coming Soon) " "" ;;
  summary <- py_strip title ;;
  description <- py_get post "description" (PStr "") ;;
  description <- py_strip description ;;
  url <- py_get post "url" (PStr "") ;;
  has_fields <- py_in "fields" post ;;
  has_fields <- (if has_fields
                 then fields <- py_getitem post "fields" ;; Ok (truthy fields)
                 else Ok false) ;;
  be <- (if has_fields
         then fields <- py_getitem post "fields" ;;
              fields <- py_iter fields ;;
              scan_fields fields (PNone, PNone)
         else Ok (PNone, PNone)) ;;
  let cleaned_event :=
    PDict [("id", id); ("summary", summary); ("description", description);
           ("url", url); ("begin", fst be); ("end", snd be)] in
  Ok (if truthy (fst be) then Some cleaned_event else None).

Fixpoint clean_posts (posts : list value) : result (list value) :=
  match posts with
  | [] => Ok []
  | post :: rest =>
      kept <- clean_post post ;;
      cleaned_events <- clean_posts rest ;;
      Ok (match kept with
          | Some cleaned_event => cleaned_event :: cleaned_events
          | None => cleaned_events
          end)
  end.

Definition clean_data (raw_data : value) : result (list value) :=
  if negb (truthy raw_data) then Ok [] else
  has_data <- py_in "data" raw_data ;;
  if negb has_data then Ok [] else
  data <- py_getitem raw_data "data" ;;
  has_posts <- py_in "posts" data ;;
  if negb has_posts then Ok [] else
  posts <- py_getitem data "posts" ;;
  has_nodes <- py_in "nodes" posts ;;
  if negb has_nodes then Ok [] else
  nodes <- py_getitem posts "nodes" ;;
  nodes <- py_iter nodes ;;
  clean_posts nodes.

(** *** Calendar renderer *)

(** The body of the [try]: build the entry of one event. *)
Definition build_event (event_data : value) : result vevent :=
  let event := new_event in
  uid <- py_getitem event_data "id" ;;
  event <- set_uid uid event ;;
  name <- py_getitem event_data "summary" ;;
  event <- set_name name event ;;
  begin <- py_getitem event_data "begin" ;;
  event <- set_begin begin event ;;
  end_ <- py_getitem event_data "end" ;;
  event <- (if truthy end_ then set_end end_ event else Ok event) ;;
  description <- py_getitem event_data "description" ;;
  event <- set_description description event ;;
  url <- py_getitem event_data "url" ;;
  event <- (if truthy url then set_url url event else Ok event) ;;
  Ok event.

(** [cal.events.add(event)]: [cal.events] is a set. *)
Definition events_add (event : vevent) (events : list vevent)
  : result (list vevent) :=
  _ <- event_hash event ;;
  Ok (if existsb (event_eqb event) events then events else (events ++ [event])%list).

(** The loop of [create_ics_file].  Every exception of the body is caught;
    the handler prints [event_data.get('summary')], which itself raises when
    [event_data] is not a dict. *)
Fixpoint add_events (events : list value) (cal : list vevent)
  : result (list vevent) :=
  match events with
  | [] => Ok cal
  | event_data :: rest =>
      match (event <- build_event event_data ;; events_add event cal) with
      | Ok cal' => add_events rest cal'
      | Raise _ =>
          _ <- py_get event_data "summary" PNone ;;
          add_events rest cal
      end
  end.

Definition create_ics_file (events : list value) (filename : string)
  : io unit :=
  (cal <- io_lift (add_events events []) ;;
   match cal with
   | [] => io_ret tt
   | _ => write_text filename (calendar_lines cal) (calendar_error cal)
   end)%io.

(** *** Reconciler *)

(** The dict comprehension of step 1:
    [{event['id']: event for event in existing_events_list if event.get('id')}] *)
Fixpoint index_events (events : list value) (events_dict : store)
  : result store :=
  match events with
  | [] => Ok events_dict
  | event :: rest =>
      id <- py_get event "id" PNone ;;
      if truthy id
      then key <- py_getitem event "id" ;;
           key <- py_hash key ;;
           index_events rest (store_set key event events_dict)
      else index_events rest events_dict
  end.

(** The merge loop of step 5; the state is [events_dict], [new_count] and
    [updated_count]. *)
Fixpoint merge_events (events : list value) (st : store * nat * nat)
  : result (store * nat * nat) :=
  match events with
  | [] => Ok st
  | event :: rest =>
      event_id <- py_get event "id" PNone ;;
      if negb (truthy event_id) then merge_events rest st
      else
        key <- py_hash event_id ;;
        let '(events_dict, new_count, updated_count) := st in
        let '(new_count, updated_count) :=
          if store_mem key events_dict
          then (new_count, S updated_count)
          else (S new_count, updated_count) in
        merge_events rest (store_set key event events_dict, new_count, updated_count)
  end.

(** Step 1: the persisted events, by id. *)
Definition load_store : io store :=
  (existing_events_list <- load_from_file CLEANED_DATA_FILE ;;
   io_lift (existing_events <- py_iter existing_events_list ;;
            index_events existing_events [])%py)%io.

(** Steps 4 and 5: clean the response and merge it into [events_dict]. *)
Definition merge_step (events_dict : store) (raw_response_data : value)
  : result store :=
  newly_cleaned_events <- clean_data raw_response_data ;;
  match newly_cleaned_events with
  | [] => Ok events_dict
  | _ =>
      '(events_dict, _, _) <- merge_events newly_cleaned_events (events_dict, 0%nat, 0%nat) ;;
      Ok events_dict
  end.

(** [main], given what [fetch_data] returned ([None] when the request
    failed). *)
Definition main (raw_response_data : value) : io unit :=
  (events_dict <- load_store ;;
   if negb (truthy raw_response_data) then io_ret tt
   else
     events_dict <- io_lift (merge_step events_dict raw_response_data) ;;
     let final_events_list := store_values events_dict in
     save_to_file (PList final_events_list) CLEANED_DATA_FILE ;;
     create_ics_file final_events_list ICS_FILE)%io.

End Program.

(** ** Views of the merge loop

    What the loop does to the dictionary, apart from the counters: the
    events that carry a usable id, each with its key, are stored from left to
    right. *)
Fixpoint keyed (events : list value) : result (list (hkey * value)) :=
  match events with
  | [] => Ok []
  | event :: rest =>
      event_id <- py_get event "id" PNone ;;
      if negb (truthy event_id) then keyed rest
      else
        key <- py_hash event_id ;;
        kvs <- keyed rest ;;
        Ok ((key, event) :: kvs)
  end.

Definition store_sets (kvs : list (hkey * value)) (d : store) : store :=
  fold_left (fun d kv => store_set (fst kv) (snd kv) d) kvs d.

(** [event.get('id')] is there and true. *)
Definition has_id (event : value) : bool :=
  match py_get event "id" PNone with
  | Ok event_id => truthy event_id
  | Raise _ => false
  end.

(** The incoming events with a non-empty id. *)
Definition count_ids (events : list value) : nat :=
  List.length (filter has_id events).

(** The event is a dict whose id is hashable, or false and so skipped. *)
Definition mergeable (event : value) : bool :=
  match py_get event "id" PNone with
  | Ok event_id =>
      match py_hash event_id with
      | Ok _ => true
      | Raise _ => negb (truthy event_id)
      end
  | Raise _ => false
  end.

(** [event['begin']] is there and true. *)
Definition has_begin (event : value) : bool :=
  match py_getitem event "begin" with
  | Ok b => truthy b
  | Raise _ => false
  end.

(** ** Views of the normalizer *)

(** The post records of a payload: what [raw_data['data']['posts']['nodes']]
    iterates over, nothing when the path is not there. *)
Definition payload_posts (raw_data : value) : list value :=
  match (data <- py_getitem raw_data "data" ;;
         posts <- py_getitem data "posts" ;;
         nodes <- py_getitem posts "nodes" ;;
         py_iter nodes) with
  | Ok posts => posts
  | Raise _ => []
  end.

(** The side list of a post, nothing when it has none. *)
Definition post_fields (post : value) : list value :=
  match (fields <- py_getitem post "fields" ;; py_iter fields) with
  | Ok fields => fields
  | Raise _ => []
  end.

(** The field is the one that supplies [begin]. *)
Definition names_start_date (field : value) : bool :=
  match py_get field "key" PNone with
  | Ok field_key => is_str "start_date" field_key
  | Raise _ => false
  end.

(** The value of the field is absent or null. *)
Definition null_valued (field : value) : bool :=
  match py_get field "value" PNone with
  | Ok PNone => true
  | _ => false
  end.

(** The start date of the post is absent or null: no field names it, or
    every field that does has no value. *)
Definition lacks_start_date (post : value) : bool :=
  forallb (fun field => negb (names_start_date field) || null_valued field)
    (post_fields post).

(** ** Views of the renderer *)

(** The body of the [try] goes through for this event, whatever the calendar
    holds: the entry is built and can be hashed. *)
Definition renders {ics : IcsLib} (event_data : value) : bool :=
  match (event <- build_event event_data ;; event_hash event) with
  | Ok _ => true
  | Raise _ => false
  end.

(** ** Library fixtures

    One implementation of each interface, small enough to evaluate: the
    examples below run the program on them. *)
Module Fixture.

Definition quote : string := String (ascii_of_nat 34) EmptyString.

(** The documents the fixture decoder knows; every other text is invalid. *)
Definition stale_event : value :=
  PDict [("id", PStr "a"); ("summary", PStr "old"); ("description", PStr "");
         ("url", PStr ""); ("begin", PNone); ("end", PNone)].

Definition q (s : string) : string := quote ++ s ++ quote.

Definition stale_text : string :=
  "[{" ++ q "id" ++ ": " ++ q "a" ++ ", " ++ q "summary" ++ ": " ++ q "old" ++ ", "
  ++ q "description" ++ ": " ++ q "" ++ ", " ++ q "url" ++ ": " ++ q "" ++ ", "
  ++ q "begin" ++ ": null, " ++ q "end" ++ ": null}]".

Definition documents : list (string * value) :=
  [ ("null", PNone);
    ("true", PBool true);
    ("0", PInt 0);
    ("7", PInt 7);
    ("[]", PList []);
    ("{}", PDict []);
    (quote ++ "2024-01-01T10:00:00" ++ quote, PStr "2024-01-01T10:00:00");
    (quote ++ "2024-01-02T10:00:00" ++ quote, PStr "2024-01-02T10:00:00");
    (stale_text, PList [stale_event]) ].

Definition loads (s : string) : result value :=
  match assoc s documents with
  | Some v => Ok v
  | None => Raise JSONDecodeError
  end.

(** A compact writer: it keeps the structure and the strings, and writes
    every number as [#]. *)
Fixpoint dumps (v : value) : string :=
  match v with
  | PNone => "null"
  | PBool true => "true"
  | PBool false => "false"
  | PInt _ | PFloat _ _ => "#"
  | PStr s => quote ++ s ++ quote
  | PList l =>
      "[" ++ (fix items (l : list value) : string :=
                match l with
                | [] => ""
                | x :: l' => dumps x ++ "," ++ items l'
                end) l ++ "]"
  | PDict d =>
      "{" ++ (fix items (d : list (string * value)) : string :=
                match d with
                | [] => ""
                | (k, x) :: d' => quote ++ k ++ quote ++ ":" ++ dumps x ++ "," ++ items d'
                end) d ++ "}"
  end.

(** A lone surrogate, as the bytes ED A0 80 to ED BF BF: the writer cannot
    encode it. *)
Fixpoint lone_surrogate (s : string) : bool :=
  match s with
  | EmptyString => false
  | String c s' =>
      match s' with
      | EmptyString => false
      | String c' _ =>
          ((nat_of_ascii c =? 237) && (160 <=? nat_of_ascii c')
           && (nat_of_ascii c' <=? 191))%nat
          || lone_surrogate s'
      end
  end.

Fixpoint unencodable (v : value) : bool :=
  match v with
  | PStr s => lone_surrogate s
  | PList l => existsb unencodable l
  | PDict d =>
      (fix items (d : list (string * value)) : bool :=
         match d with
         | [] => false
         | (k, x) :: d' => lone_surrogate k || unencodable x || items d'
         end) d
  | _ => false
  end.

(** What reaches the file: everything, or only the opening of the
    document when a string cannot be encoded. *)
Definition dumped (v : value) : string :=
  if unencodable v then "[" else dumps v.

Definition dump_error (v : value) : option exn :=
  if unencodable v then Some UnicodeEncodeError else None.

#[export] Instance json_fixture : JsonLib :=
  {| json_loads := loads; json_dumps := dumped; json_dump_error := dump_error |}.

(** Calendar entries as property lists.  A start or an end must be a
    non-empty string, the hash of an entry needs a string [uid], and two
    entries are the same when their [uid]s are. *)
Definition entry : Type := list (string * value).

Definition set_prop (name : string) (v : value) (ev : entry) : result entry :=
  Ok (ev ++ [(name, v)])%list.

Definition set_time (name : string) (v : value) (ev : entry) : result entry :=
  match v with
  | PStr (String _ _) => Ok (ev ++ [(name, v)])%list
  | _ => Raise TypeError
  end.

Definition uid_of (ev : entry) : option string :=
  match assoc "UID" ev with
  | Some (PStr s) => Some s
  | _ => None
  end.

Definition hash (ev : entry) : result Z :=
  match uid_of ev with
  | Some s => Ok (Z.of_nat (String.length s))
  | None => Raise AttributeError
  end.

Definition same (a b : entry) : bool :=
  match uid_of a, uid_of b with
  | Some s, Some t => (s =? t)%string
  | _, _ => false
  end.

Definition lines (cal : list entry) : string :=
  "BEGIN:VCALENDAR;" ++
  concat "" (map (fun ev => "BEGIN:VEVENT;" ++ dumps (PDict ev) ++ ";END:VEVENT;") cal)
  ++ "END:VCALENDAR".

(** An entry whose [URL] is not a string is accepted by the setter and
    cannot be written: the lines are made before any of them is written, so
    nothing reaches the file. *)
Definition unwritable (ev : entry) : bool :=
  match assoc "URL" ev with
  | Some (PStr _) | None => false
  | Some _ => true
  end.

Definition lines_error (cal : list entry) : option exn :=
  if existsb unwritable cal then Some AttributeError else None.

Definition written_lines (cal : list entry) : string :=
  if existsb unwritable cal then "" else lines cal.

#[export] Instance ics_fixture : IcsLib := {|
  vevent := entry;
  new_event := [];
  set_uid := set_prop "UID";
  set_name := set_prop "SUMMARY";
  set_begin := set_time "DTSTART";
  set_end := set_time "DTEND";
  set_description := set_prop "DESCRIPTION";
  set_url := set_prop "URL";
  event_hash := hash;
  event_eqb := same;
  calendar_lines := written_lines;
  calendar_error := lines_error
|}.

(** The payload of the end-to-end scenario. *)
Definition demo_payload : value :=
  PDict [("data", PDict [("posts", PDict [("nodes", PList
    [PDict [("id", PStr "x1");
            ("title", PStr "(Coming Soon) Demo");
            ("fields", PList [PDict [("key", PStr "start_date");
                                     ("value", PStr (quote ++ "2024-01-01T10:00:00" ++ quote))]])]])])])].

Definition demo_event : value :=
  PDict [("id", PStr "x1"); ("summary", PStr "Demo"); ("description", PStr "");
         ("url", PStr ""); ("begin", PStr "2024-01-01T10:00:00"); ("end", PNone)].

(** A post whose start date is null, and one whose title is null. *)
Definition null_start_post : value :=
  PDict [("id", PStr "x2"); ("title", PStr "Later");
         ("fields", PList [PDict [("key", PStr "start_date"); ("value", PNone)];
                           PDict [("key", PStr "end_date");
                                  ("value", PStr (quote ++ "2024-01-02T10:00:00" ++ quote))]])].

Definition null_title_payload : value :=
  PDict [("data", PDict [("posts", PDict [("nodes", PList
    [PDict [("id", PStr "x1"); ("title", PNone)]])])])].

(** File systems to start from. *)
Definition no_files : filesystem := fun _ => Absent.

Definition with_store (text : string) : filesystem :=
  fs_write CLEANED_DATA_FILE text no_files.

Definition with_calendar (text : string) : filesystem :=
  fs_write ICS_FILE text no_files.

(** An event whose url is a number: the setter takes it, the writer does
    not. *)
Definition numbered_url_event : value :=
  PDict [("id", PStr "u1"); ("summary", PStr "Offer"); ("description", PStr "");
         ("url", PInt 5); ("begin", PStr "2024-01-02T10:00:00"); ("end", PNone)].

Definition numbered_url_entry : entry :=
  [("UID", PStr "u1"); ("SUMMARY", PStr "Offer");
   ("DTSTART", PStr "2024-01-02T10:00:00"); ("DESCRIPTION", PStr "");
   ("URL", PInt 5)].

(** A store file whose bytes are not UTF-8. *)
Definition garbled_store : filesystem :=
  fun n => if (n =? CLEANED_DATA_FILE)%string then Undecodable else Absent.

(** A decoder that gives up on eight opening brackets. *)
Definition nesting_loads (s : string) : result value :=
  if prefix_of "[[[[[[[[" s then Raise RecursionError else loads s.

Definition nesting_json : JsonLib :=
  {| json_loads := nesting_loads;
     json_dumps := dumped;
     json_dump_error := dump_error |}.

End Fixture.

(** ** The access token

    [fetch_access_token] searches the page for the pattern
    [accessToken], between quotes, then a colon, then a quoted run of one
    or more characters other than the quote; the run is the token. *)

Definition dq : ascii := ascii_of_nat 34.

(** The fixed part of the pattern, up to the opening quote of the token. *)
Definition TOKEN_MARKER : string :=
  String dq ("accessToken" ++ String dq (":" ++ String dq EmptyString)).

Fixpoint drop (n : nat) (s : string) : string :=
  match n, s with
  | O, _ => s
  | S _, EmptyString => EmptyString
  | S k, String _ s' => drop k s'
  end.

(** The longest run of characters other than the quote at the head of [s],
    and what follows it. *)
Fixpoint span_unquoted (s : string) : string * string :=
  match s with
  | EmptyString => (EmptyString, EmptyString)
  | String c s' =>
      if (c =? dq)%char then (EmptyString, s)
      else let (t, r) := span_unquoted s' in (String c t, r)
  end.

(** A match of the pattern at the head of [s]: the group is greedy, and it
    must be followed by the closing quote. *)
Definition match_token (s : string) : option string :=
  if prefix_of TOKEN_MARKER s
  then
    let (t, r) := span_unquoted (drop (String.length TOKEN_MARKER) s) in
    match t, r with
    | String _ _, String _ _ => Some t
    | _, _ => None
    end
  else None.

(** [re.search(pattern, content)] and [match.group(1)]: the leftmost
    match. *)
Fixpoint search_token (content : string) : option string :=
  match match_token content with
  | Some token => Some token
  | None =>
      match content with
      | EmptyString => None
      | String _ content' => search_token content'
      end
  end.

(** [fetch_access_token], given what [requests.get(url)],
    [raise_for_status()] and [response.text] gave: the text of the page, or
    an exception, which [except Exception] turns into [None]. *)
Definition fetch_access_token (page : result string) : option string :=
  match page with
  | Ok content => search_token content
  | Raise _ => None
  end.

(** [d[key] = v] on the items of a dict. *)
Fixpoint assoc_set (key : string) (v : value) (d : list (string * value))
  : list (string * value) :=
  match d with
  | [] => [(key, v)]
  | (k', v') :: d' =>
      if (key =? k')%string then (k', v) :: d' else (k', v') :: assoc_set key v d'
  end.

(** [x[key] = v] for a string [key]: a list wants an integer index, the
    other values take no item assignment. *)
Definition py_setitem (x : value) (key : string) (v : value) : result value :=
  match x with
  | PDict d => Ok (PDict (assoc_set key v d))
  | _ => Raise TypeError
  end.

(** The start-up code that puts the token into [HEADERS]:
    [if token: HEADERS["authorization"] = f"Bearer {token}"]. *)
Definition inject_token (HEADERS : value) (token : option string)
  : result value :=
  match token with
  | Some (String c t) =>
      py_setitem HEADERS "authorization" (PStr ("Bearer " ++ String c t))
  | _ => Ok HEADERS
  end.

(** ** More views *)

(** The string is a run of white space characters. *)
Fixpoint all_space (s : string) : bool :=
  match s with
  | EmptyString => true
  | String c1 s1 =>
      space1 c1 && all_space s1 ||
      match s1 with
      | EmptyString => false
      | String c2 s2 =>
          space2 c1 c2 && all_space s2 ||
          match s2 with
          | EmptyString => false
          | String c3 s3 => space3 c1 c2 c3 && all_space s3
          end
      end
  end.

(** The string starts with a white space character. *)
Definition starts_with_space (s : string) : bool :=
  match s with
  | EmptyString => false
  | String c1 s1 =>
      space1 c1 ||
      match s1 with
      | EmptyString => false
      | String c2 s2 =>
          space2 c1 c2 ||
          match s2 with
          | EmptyString => false
          | String c3 _ => space3 c1 c2 c3
          end
      end
  end.

(** The string is one white space character. *)
Definition one_space (s : string) : bool :=
  match s with
  | String c1 EmptyString => space1 c1
  | String c1 (String c2 EmptyString) => space2 c1 c2
  | String c1 (String c2 (String c3 EmptyString)) => space3 c1 c2 c3
  | _ => false
  end.

(** The string ends with a white space character. *)
Fixpoint ends_with_space (s : string) : bool :=
  match s with
  | EmptyString => false
  | String _ s' => one_space s || ends_with_space s'
  end.

Fixpoint has_quote (s : string) : bool :=
  match s with
  | EmptyString => false
  | String c s' => (c =? dq)%char || has_quote s'
  end.

Definition is_dict (v : value) : bool :=
  match v with
  | PDict _ => true
  | _ => false
  end.

(** The item [(k, event)] is filed under the id of its event. *)
Definition keyed_by (k : hkey) (event : value) : bool :=
  match py_get event "id" PNone with
  | Ok event_id =>
      truthy event_id &&
      match py_hash event_id with
      | Ok k' => hkey_eqb k k'
      | Raise _ => false
      end
  | Raise _ => false
  end.

(** A dictionary as the program builds it: every item under the id of its
    event, one item per id. *)
Definition well_keyed (d : store) : Prop :=
  forallb (fun kv => keyed_by (fst kv) (snd kv)) d = true /\
  NoDup (store_keys d).

(** The event a post is turned into, if any. *)
Definition kept {json : JsonLib} (post : value) : list value :=
  match clean_post post with
  | Ok (Some event) => [event]
  | _ => []
  end.

(** The title the summary is made from. *)
Definition post_title (post : value) : value :=
  match py_get post "title" (PStr "No Title") with
  | Ok title => title
  | Raise _ => PNone
  end.

Definition COMING_SOON : string := "(Coming Soon) ".

(** A decoder that reads back what the fixture writer wrote for two lists
    of events, and is the fixture decoder otherwise. *)
Definition readback_loads (s : string) : result value :=
  if (s =? Fixture.dumps (PList [Fixture.demo_event]))%string
  then Ok (PList [Fixture.demo_event])
  else if (s =? Fixture.dumps (PList [Fixture.stale_event; Fixture.demo_event]))%string
  then Ok (PList [Fixture.stale_event; Fixture.demo_event])
  else Fixture.loads s.

Definition readback_json : JsonLib :=
  {| json_loads := readback_loads;
     json_dumps := Fixture.dumps;
     json_dump_error := fun _ => None |}.

(** More posts and payloads to run the program on. *)
Definition demo_post : value :=
  PDict [("id", PStr "x1");
         ("title", PStr "(Coming Soon) Demo");
         ("fields", PList [PDict [("key", PStr "start_date");
                                  ("value", PStr (Fixture.quote ++ "2024-01-01T10:00:00" ++ Fixture.quote))]])].

Definition start_field (text : string) : value :=
  PDict [("key", PStr "start_date"); ("value", PStr text)].

Definition padded_post : value :=
  PDict [("id", PStr "x3");
         ("title", PStr "  Big Sale  ");
         ("description", PStr " two days ");
         ("fields", PList [start_field "soon"])].

Definition untitled_post : value :=
  PDict [("id", PStr "x4"); ("fields", PList [start_field "soon"])].

Definition null_title_post : value :=
  PDict [("id", PStr "x5"); ("title", PNone)].

(** U+00A0 and U+3000 as UTF-8, and a post whose title is padded with
    them. *)
Definition NBSP : string :=
  String (ascii_of_nat 194) (String (ascii_of_nat 160) "").

Definition IDEOGRAPHIC_SPACE : string :=
  String (ascii_of_nat 227)
    (String (ascii_of_nat 128) (String (ascii_of_nat 128) "")).

Definition wide_post : value :=
  PDict [("id", PStr "x6");
         ("title", PStr (NBSP ++ " Demo" ++ IDEOGRAPHIC_SPACE ++ NBSP));
         ("fields", PList [start_field "soon"])].

Definition wide_event : value :=
  PDict [("id", PStr "x6"); ("summary", PStr "Demo");
         ("description", PStr ""); ("url", PStr "");
         ("begin", PStr "soon"); ("end", PNone)].

Definition padded_event : value :=
  PDict [("id", PStr "x3"); ("summary", PStr "Big Sale");
         ("description", PStr "two days"); ("url", PStr "");
         ("begin", PStr "soon"); ("end", PNone)].

Definition untitled_event : value :=
  PDict [("id", PStr "x4"); ("summary", PStr "No Title");
         ("description", PStr ""); ("url", PStr "");
         ("begin", PStr "soon"); ("end", PNone)].

Definition demo_entry : Fixture.entry :=
  [("UID", PStr "x1"); ("SUMMARY", PStr "Demo");
   ("DTSTART", PStr "2024-01-01T10:00:00"); ("DESCRIPTION", PStr "")].

(** A store file that cannot be opened, and a file of somebody else. *)
Definition locked_store : filesystem :=
  fun n => if (n =? CLEANED_DATA_FILE)%string then Unopenable else Absent.

Definition locked_calendar : filesystem :=
  fun n => if (n =? ICS_FILE)%string then Unopenable else Absent.

Definition with_notes : filesystem :=
  fs_write "notes.txt" "mine" Fixture.no_files.

(** An event whose id is a list, and a decoder that knows two store files
    of the wrong shape. *)
Definition listed_id_event : value :=
  PDict [("id", PList [PInt 1]); ("summary", PStr "listed")].

Definition mixed_loads (s : string) : result value :=
  if (s =? "mixed")%string
  then Ok (PList [Fixture.demo_event; PInt 5; listed_id_event])
  else if (s =? "listed")%string
  then Ok (PList [listed_id_event; PInt 5])
  else Fixture.loads s.

Definition mixed_json : JsonLib :=
  {| json_loads := mixed_loads;
     json_dumps := Fixture.dumped;
     json_dump_error := Fixture.dump_error |}.

(** An event whose summary holds a lone surrogate (the bytes ED A0 80), and
    a decoder that knows a store file holding it. *)
Definition surrogate_event : value :=
  PDict [("id", PStr "s1");
         ("summary",
          PStr (String (ascii_of_nat 237)
                  (String (ascii_of_nat 160) (String (ascii_of_nat 128) ""))));
         ("description", PStr ""); ("url", PStr "");
         ("begin", PStr "2024-01-04T10:00:00"); ("end", PNone)].

Definition surrogate_loads (s : string) : result value :=
  if (s =? "lone")%string then Ok (PList [surrogate_event])
  else Fixture.loads s.

Definition surrogate_json : JsonLib :=
  {| json_loads := surrogate_loads;
     json_dumps := Fixture.dumped;
     json_dump_error := Fixture.dump_error |}.


Definition payload_of (posts : list value) : value :=
  PDict [("data", PDict [("posts", PDict [("nodes", PList posts)])])].

(** A page that carries a token. *)
Definition token_page : string :=
  "<script>{" ++ String dq ("user" ++ String dq (":null,"
  ++ TOKEN_MARKER ++ "abc.DEF-123" ++ String dq ("," ++ String dq ("x" ++ String dq ":1}</script>")))).

Import Fixture.

(** * Properties *)

(** ** The store dictionary *)

Lemma hkey_eqb_eq (a b : hkey) : hkey_eqb a b = true <-> a = b.
Proof.
  destruct a, b; simpl; try (split; [discriminate | congruence]);
    try tauto.
  - rewrite andb_true_iff, !Z.eqb_eq. split.
    + intros [-> ->]. reflexivity.
    + intros E. injection E. auto.
  - rewrite String.eqb_eq. split; congruence.
Qed.

Lemma hkey_eqb_refl (a : hkey) : hkey_eqb a a = true.
Proof. apply hkey_eqb_eq. reflexivity. Qed.

Lemma hkey_eqb_neq (a b : hkey) : a <> b -> hkey_eqb a b = false.
Proof.
  intros N. destruct (hkey_eqb a b) eqn:E; [|reflexivity].
  apply hkey_eqb_eq in E. contradiction.
Qed.

Ltac key_cases a b :=
  let E := fresh "E" in
  destruct (hkey_eqb a b) eqn:E;
  [apply hkey_eqb_eq in E; subst | ].

Lemma store_get_set_same (k : hkey) (v : value) (d : store) :
  store_get k (store_set k v d) = Some v.
Proof.
  induction d as [|[k' v'] d IH]; simpl.
  - rewrite hkey_eqb_refl. reflexivity.
  - key_cases k k'; simpl.
    + rewrite hkey_eqb_refl. reflexivity.
    + rewrite E. exact IH.
Qed.

Lemma store_get_set_other (k k' : hkey) (v : value) (d : store) :
  k <> k' -> store_get k' (store_set k v d) = store_get k' d.
Proof.
  intros N. induction d as [|[k0 v0] d IH]; simpl.
  - rewrite hkey_eqb_neq by congruence. reflexivity.
  - key_cases k k0; simpl.
    + rewrite hkey_eqb_neq by congruence. reflexivity.
    + rewrite IH. reflexivity.
Qed.

Lemma store_mem_set_same (k : hkey) (v : value) (d : store) :
  store_mem k (store_set k v d) = true.
Proof. unfold store_mem. rewrite store_get_set_same. reflexivity. Qed.

Lemma store_mem_set (k k' : hkey) (v : value) (d : store) :
  store_mem k' d = true -> store_mem k' (store_set k v d) = true.
Proof.
  intros M. destruct (hkey_eqb k k') eqn:E.
  - apply hkey_eqb_eq in E. subst. apply store_mem_set_same.
  - unfold store_mem in *. rewrite store_get_set_other; [exact M|].
    intros ->. rewrite hkey_eqb_refl in E. discriminate.
Qed.

Lemma store_set_absent (k : hkey) (v : value) (d : store) :
  store_mem k d = false -> store_set k v d = (d ++ [(k, v)])%list.
Proof.
  unfold store_mem. induction d as [|[k' v'] d IH]; simpl; [reflexivity|].
  destruct (hkey_eqb k k'); [discriminate|].
  intros M. rewrite IH by exact M. reflexivity.
Qed.

Lemma store_set_length (k : hkey) (v : value) (d : store) :
  List.length (store_set k v d) =
  (List.length d + if store_mem k d then 0 else 1)%nat.
Proof.
  unfold store_mem. induction d as [|[k' v'] d IH]; simpl; [reflexivity|].
  destruct (hkey_eqb k k'); simpl; [lia|].
  rewrite IH. reflexivity.
Qed.

(** A second assignment to a key overrides the first. *)
Lemma store_set_set (k : hkey) (v v' : value) (d : store) :
  store_set k v (store_set k v' d) = store_set k v d.
Proof.
  induction d as [|[k0 v0] d IH]; simpl.
  - rewrite hkey_eqb_refl. reflexivity.
  - key_cases k k0; simpl.
    + rewrite hkey_eqb_refl. reflexivity.
    + rewrite E, IH. reflexivity.
Qed.

(** Assignments to two keys commute when the first one is already there:
    neither changes the place of the other. *)
Lemma store_set_comm (k k1 : hkey) (v v1 : value) (d : store) :
  k <> k1 -> store_mem k1 d = true ->
  store_set k1 v1 (store_set k v d) = store_set k v (store_set k1 v1 d).
Proof.
  intros N. unfold store_mem.
  induction d as [|[k0 v0] d IH]; simpl; [discriminate|].
  intros M. key_cases k1 k0.
  - rewrite (hkey_eqb_neq k k0) by exact N. simpl.
    rewrite hkey_eqb_refl, (hkey_eqb_neq k k0) by exact N. reflexivity.
  - key_cases k k0; simpl.
    + rewrite E, hkey_eqb_refl. reflexivity.
    + rewrite E, E0, IH by exact M. reflexivity.
Qed.

(** A dictionary has one item per key, and assignment keeps it so. *)
Lemma store_set_keys (k : hkey) (v : value) (d : store) :
  store_keys (store_set k v d) =
  if store_mem k d then store_keys d else (store_keys d ++ [k])%list.
Proof.
  unfold store_mem. induction d as [|[k0 v0] d IH]; simpl; [reflexivity|].
  destruct (hkey_eqb k k0); simpl; [reflexivity|].
  rewrite IH. destruct (store_get k d); reflexivity.
Qed.

Lemma store_mem_keys (k : hkey) (d : store) :
  store_mem k d = true <-> In k (store_keys d).
Proof.
  unfold store_mem. induction d as [|[k0 v0] d IH]; simpl.
  - split; [discriminate | tauto].
  - key_cases k k0.
    + split; auto.
    + rewrite IH. split; [tauto|]. intros [->|I]; [|exact I].
      rewrite hkey_eqb_refl in E. discriminate.
Qed.

Lemma store_set_nodup (k : hkey) (v : value) (d : store) :
  NoDup (store_keys d) -> NoDup (store_keys (store_set k v d)).
Proof.
  intros ND. rewrite store_set_keys.
  destruct (store_mem k d) eqn:M; [exact ND|].
  apply NoDup_app; [exact ND | repeat constructor; simpl; tauto |].
  intros x I [<-|[]]. apply store_mem_keys in I. congruence.
Qed.

(** Keys are compared as numbers: [True], [1], [1.0] are one key, and so
    are [0.5] written as [1 * 2^-1] and as [4 * 2^-3]. *)
Example hash_one :
  py_hash (PBool true) = py_hash (PInt 1) /\
  py_hash (PInt 1) = py_hash (PFloat 1 0) /\
  py_hash (PFloat 1 (-1)) = py_hash (PFloat 4 (-3)) /\
  py_hash (PInt 1) <> py_hash (PStr "1").
Proof. repeat split; try reflexivity. discriminate. Qed.

(** ** The merge loop *)

Lemma store_sets_app (kvs kvs' : list (hkey * value)) (d : store) :
  store_sets (kvs ++ kvs') d = store_sets kvs' (store_sets kvs d).
Proof. apply fold_left_app. Qed.

Lemma store_sets_mem_old (kvs : list (hkey * value)) :
  forall d k, store_mem k d = true -> store_mem k (store_sets kvs d) = true.
Proof.
  induction kvs as [|[k0 v0] kvs IH]; simpl; intros d k M; [exact M|].
  apply IH, store_mem_set, M.
Qed.

Lemma store_sets_mem_new (kvs : list (hkey * value)) :
  forall d k, In k (map fst kvs) -> store_mem k (store_sets kvs d) = true.
Proof.
  induction kvs as [|[k0 v0] kvs IH]; simpl; intros d k I; [contradiction|].
  destruct (hkey_eqb k0 k) eqn:E.
  - apply hkey_eqb_eq in E. subst.
    apply store_sets_mem_old, store_mem_set_same.
  - destruct I as [->|I]; [rewrite hkey_eqb_refl in E; discriminate|].
    apply IH, I.
Qed.

(** Once every key of a run of assignments is in the dictionary, an
    assignment made before the run is hidden by the same one made after. *)
Lemma store_sets_absorb (kvs : list (hkey * value)) :
  forall d k v,
    (forall k', In k' (map fst kvs) -> store_mem k' d = true) ->
    store_set k v (store_sets kvs (store_set k v d)) =
    store_set k v (store_sets kvs d).
Proof.
  induction kvs as [|[k1 v1] kvs IH]; simpl; intros d k v M.
  - apply store_set_set.
  - destruct (hkey_eqb k k1) eqn:E.
    + apply hkey_eqb_eq in E. subst k1. rewrite store_set_set. reflexivity.
    + assert (N : k <> k1).
      { intros ->. rewrite hkey_eqb_refl in E. discriminate. }
      rewrite store_set_comm by auto.
      apply IH. intros k' I. apply store_mem_set. auto.
Qed.

Lemma store_sets_idempotent (kvs : list (hkey * value)) :
  forall d, store_sets kvs (store_sets kvs d) = store_sets kvs d.
Proof.
  induction kvs as [|[k v] kvs IH] using rev_ind; intros d; [reflexivity|].
  rewrite !store_sets_app. simpl.
  rewrite store_sets_absorb.
  - rewrite IH. reflexivity.
  - intros k' I. apply store_sets_mem_new, I.
Qed.

Lemma store_sets_length (kvs : list (hkey * value)) :
  forall d, (List.length d <= List.length (store_sets kvs d))%nat.
Proof.
  induction kvs as [|[k v] kvs IH]; simpl; intros d; [lia|].
  specialize (IH (store_set k v d)). rewrite store_set_length in IH. lia.
Qed.

Lemma store_sets_nodup (kvs : list (hkey * value)) :
  forall d, NoDup (store_keys d) -> NoDup (store_keys (store_sets kvs d)).
Proof.
  induction kvs as [|[k v] kvs IH]; simpl; intros d ND; [exact ND|].
  apply IH, store_set_nodup, ND.
Qed.

(** The events the loop stores are those with a non-empty id. *)
Lemma keyed_length (events : list value) :
  forall kvs, keyed events = Ok kvs -> List.length kvs = count_ids events.
Proof.
  unfold count_ids.
  induction events as [|event rest IH]; simpl; intros kvs K.
  - injection K as <-. reflexivity.
  - unfold has_id. destruct (py_get event "id" PNone) as [event_id|]; simpl in *;
      [|discriminate].
    destruct (truthy event_id); simpl in *.
    + destruct (py_hash event_id); simpl in *; [|discriminate].
      destruct (keyed rest); simpl in *; [|discriminate].
      injection K as <-. simpl. f_equal. apply IH. reflexivity.
    + apply IH, K.
Qed.

Lemma keyed_values (events : list value) :
  forall kvs, keyed events = Ok kvs ->
    forall k event, In (k, event) kvs -> In event events /\ has_id event = true.
Proof.
  induction events as [|event rest IH]; simpl; intros kvs K k e I.
  - injection K as <-. contradiction.
  - unfold has_id at 1.
    destruct (py_get event "id" PNone) as [event_id|] eqn:G; simpl in *;
      [|discriminate].
    destruct (truthy event_id) eqn:T; simpl in *.
    + destruct (py_hash event_id); simpl in *; [|discriminate].
      destruct (keyed rest); simpl in *; [|discriminate].
      injection K as <-. destruct I as [I|I].
      * injection I as <- <-. split; [auto|]. unfold has_id. rewrite G. exact T.
      * destruct (IH _ eq_refl _ _ I). auto.
    + destruct (IH _ K _ _ I). auto.
Qed.

(** The loop, seen through [keyed] and [store_sets]: it ends normally
    exactly when every id met is hashable, and then the dictionary is the
    result of the assignments and the counters tell the new keys from the
    known ones. *)
Lemma merge_events_keyed (events : list value) :
  forall d n u d' n' u',
    merge_events events (d, n, u) = Ok (d', n', u') ->
    exists kvs,
      keyed events = Ok kvs /\ d' = store_sets kvs d /\
      (n <= n')%nat /\ (u <= u')%nat /\
      ((n' - n) + (u' - u) = List.length kvs)%nat /\
      (List.length d' = List.length d + (n' - n))%nat.
Proof.
  induction events as [|event rest IH]; simpl; intros d n u d' n' u' M.
  - injection M as <- <- <-. exists []. simpl. repeat split; lia.
  - destruct (py_get event "id" PNone) as [event_id|]; simpl in *;
      [|discriminate].
    destruct (truthy event_id); simpl in *; [|apply IH, M].
    destruct (py_hash event_id) as [key|]; simpl in *; [|discriminate].
    pose proof (store_set_length key event d) as L.
    destruct (store_mem key d);
      destruct (IH _ _ _ _ _ _ M) as (kvs & K & -> & Hn & Hu & Hc & Hl);
      rewrite K; simpl; exists ((key, event) :: kvs); simpl;
      repeat split; try reflexivity; lia.
Qed.

Lemma merge_events_known (events : list value) :
  forall kvs d n u,
    keyed events = Ok kvs ->
    (forall k, In k (map fst kvs) -> store_mem k d = true) ->
    merge_events events (d, n, u) =
    Ok (store_sets kvs d, n, (u + List.length kvs)%nat).
Proof.
  induction events as [|event rest IH]; simpl; intros kvs d n u K M.
  - injection K as <-. simpl. rewrite Nat.add_0_r. reflexivity.
  - destruct (py_get event "id" PNone) as [event_id|]; simpl in *;
      [|discriminate].
    destruct (truthy event_id); simpl in *; [|apply IH; assumption].
    destruct (py_hash event_id) as [key|]; simpl in *; [|discriminate].
    destruct (keyed rest) as [kvs'|] eqn:K'; simpl in *; [|discriminate].
    injection K as <-. simpl in *.
    rewrite (M key) by auto.
    rewrite (IH kvs') by (auto using store_mem_set).
    do 2 f_equal. lia.
Qed.

(** The loop ends normally on events that can be merged. *)
Lemma merge_events_total (events : list value) :
  forall st, forallb mergeable events = true ->
    exists st', merge_events events st = Ok st'.
Proof.
  induction events as [|event rest IH]; simpl; intros st A; [eauto|].
  apply andb_true_iff in A as [A1 A2]. unfold mergeable in A1.
  destruct (py_get event "id" PNone) as [event_id|]; simpl; [|discriminate].
  destruct (truthy event_id); simpl; [|apply IH, A2].
  destruct (py_hash event_id) as [key|]; simpl; [|discriminate].
  destruct st as [[d n] u]. destruct (store_mem key d); apply IH, A2.
Qed.

(** C1.  Merging the same events a second time leaves the dictionary as the
    first merge made it, items and order alike; the second pass counts no
    new event and counts every event with a non-empty id as updated.  The
    first merge does return when the events can be merged. *)
Theorem merge_idempotent (events : list value) (d : store) :
  (forallb mergeable events = true ->
   exists d1 n1 u1, merge_events events (d, 0%nat, 0%nat) = Ok (d1, n1, u1)) /\
  (forall d1 n1 u1,
     merge_events events (d, 0%nat, 0%nat) = Ok (d1, n1, u1) ->
     merge_events events (d1, 0%nat, 0%nat) = Ok (d1, 0%nat, count_ids events)).
Proof.
  split.
  - intros A. destruct (merge_events_total events (d, 0%nat, 0%nat) A)
      as [[[d1 n1] u1] M]. eauto.
  - intros d1 n1 u1 M.
    destruct (merge_events_keyed _ _ _ _ _ _ _ M) as (kvs & K & -> & _).
    rewrite (merge_events_known events kvs _ _ _ K).
    + rewrite store_sets_idempotent, (keyed_length _ _ K). reflexivity.
    + intros k I. apply store_sets_mem_new, I.
Qed.

Lemma merge_idempotent_witness :
  let events := [demo_event; stale_event; demo_event] in
  let d := [(HStr "a", stale_event)] in
  let d1 := [(HStr "a", stale_event); (HStr "x1", demo_event)] in
  forallb mergeable events = true /\
  merge_events events (d, 0%nat, 0%nat) = Ok (d1, 1%nat, 2%nat) /\
  merge_events events (d1, 0%nat, 0%nat) = Ok (d1, 0%nat, 3%nat).
Proof.
  split; [reflexivity|]. split; [reflexivity|].
  exact (proj2 (merge_idempotent [demo_event; stale_event; demo_event]
                  [(HStr "a", stale_event)]) _ 1%nat 2%nat eq_refl).
Defined.

Lemma merge_events_app (events events' : list value) :
  forall st,
    merge_events (events ++ events') st
    = (st1 <- merge_events events st ;; merge_events events' st1).
Proof.
  induction events as [|event rest IH]; intros st; simpl; [reflexivity|].
  destruct (py_get event "id" PNone) as [id|]; simpl; [|reflexivity].
  destruct (truthy id); simpl; [|apply IH].
  destruct (py_hash id) as [key|]; simpl; [|reflexivity].
  destruct st as [[d n] u]. destruct (store_mem key d); apply IH.
Qed.

Lemma store_sets_get_other (kvs : list (hkey * value)) :
  forall d k, ~ In k (map fst kvs) ->
    store_get k (store_sets kvs d) = store_get k d.
Proof.
  induction kvs as [|[k0 v0] kvs IH]; simpl; intros d k N; [reflexivity|].
  rewrite IH by tauto. apply store_get_set_other. intros ->. tauto.
Qed.

(** C3.  An incoming event with a usable id, anywhere in the incoming list.
    When the loop reaches it, the dictionary gets the incoming event under
    that id and every other id is left alone.  If the id is known by then, as
    it is when the existing store holds it, the event is counted as updated,
    exactly once, the new counter stays, and the dictionary keeps its size;
    if it is unknown, the event is counted as new and goes last.  The loop
    then goes on with the rest of the list, and the merged store holds the
    incoming event under that id unless a later event carries the same id. *)
Theorem merge_precedence (before after : list value) (event event_id : value)
    (key : hkey) (d d1 : store) (n u n1 u1 : nat) :
  py_get event "id" PNone = Ok event_id ->
  truthy event_id = true ->
  py_hash event_id = Ok key ->
  merge_events before (d, n, u) = Ok (d1, n1, u1) ->
  let d2 := store_set key event d1 in
  store_get key d2 = Some event /\
  (forall k, k <> key -> store_get k d2 = store_get k d1) /\
  (store_mem key d1 = true ->
     merge_events (before ++ event :: after) (d, n, u)
     = merge_events after (d2, n1, S u1) /\
     List.length d2 = List.length d1) /\
  (store_mem key d1 = false ->
     merge_events (before ++ event :: after) (d, n, u)
     = merge_events after (d2, S n1, u1) /\
     d2 = (d1 ++ [(key, event)])%list) /\
  (store_mem key d = true -> store_mem key d1 = true) /\
  (forall d' n' u' kvs,
     merge_events (before ++ event :: after) (d, n, u) = Ok (d', n', u') ->
     keyed after = Ok kvs -> ~ In key (map fst kvs) ->
     store_get key d' = Some event).
Proof.
  intros G T H B d2. subst d2.
  assert (E : merge_events (before ++ event :: after) (d, n, u)
              = merge_events after
                  (store_set key event d1,
                   (if store_mem key d1 then n1 else S n1),
                   (if store_mem key d1 then S u1 else u1))).
  { rewrite merge_events_app, B. simpl. rewrite G. simpl. rewrite T. simpl.
    rewrite H. simpl. destruct (store_mem key d1); reflexivity. }
  split; [apply store_get_set_same|].
  split; [intros k N; apply store_get_set_other; congruence|].
  split; [|split; [|split]].
  - intros M. rewrite E, M. split; [reflexivity|].
    rewrite store_set_length, M. lia.
  - intros M. rewrite E, M. split; [reflexivity|]. apply store_set_absent, M.
  - intros M. destruct (merge_events_keyed _ _ _ _ _ _ _ B) as (kvs & _ & -> & _).
    apply store_sets_mem_old, M.
  - intros d' n' u' kvs M K N. rewrite E in M.
    destruct (merge_events_keyed _ _ _ _ _ _ _ M) as (kvs' & K' & -> & _).
    assert (kvs' = kvs) as -> by congruence.
    rewrite store_sets_get_other by exact N. apply store_get_set_same.
Qed.

Lemma merge_precedence_witness :
  let old := PDict [("id", PStr "A"); ("summary", PStr "old")] in
  let new := PDict [("id", PStr "A"); ("summary", PStr "new")] in
  merge_events [demo_event; new; stale_event] ([(HStr "A", old)], 0%nat, 0%nat)
  = Ok ([(HStr "A", new); (HStr "x1", demo_event); (HStr "a", stale_event)],
        2%nat, 1%nat) /\
  merge_events [new; stale_event] ([], 0%nat, 0%nat)
  = Ok ([(HStr "A", new); (HStr "a", stale_event)], 2%nat, 0%nat).
Proof.
  pose (old := PDict [("id", PStr "A"); ("summary", PStr "old")]).
  pose (new := PDict [("id", PStr "A"); ("summary", PStr "new")]).
  split.
  - exact (proj1 (proj1 (proj2 (proj2
      (merge_precedence [demo_event] [stale_event] new (PStr "A") (HStr "A")
         [(HStr "A", old)] [(HStr "A", old); (HStr "x1", demo_event)]
         0 0 1 0 eq_refl eq_refl eq_refl eq_refl))) eq_refl)).
  - exact (proj1 (proj1 (proj2 (proj2 (proj2
      (merge_precedence [] [stale_event] new (PStr "A") (HStr "A")
         [] [] 0 0 0 0 eq_refl eq_refl eq_refl eq_refl)))) eq_refl)).
Defined.

(** C10.  A merge that starts its counters at zero: the dictionary grows by
    the number of new events, new and updated together are the incoming
    events with a non-empty id, no id of the dictionary is lost, and the
    dictionary still has one item per id.  The merge does return when the
    events can be merged. *)
Theorem merge_size_conservation (events : list value) (d : store) :
  (forallb mergeable events = true ->
   exists st, merge_events events (d, 0%nat, 0%nat) = Ok st) /\
  (forall d' new_count updated_count,
     merge_events events (d, 0%nat, 0%nat) = Ok (d', new_count, updated_count) ->
     List.length d' = (List.length d + new_count)%nat /\
     (new_count + updated_count)%nat = count_ids events /\
     (forall k, store_mem k d = true -> store_mem k d' = true) /\
     (NoDup (store_keys d) -> NoDup (store_keys d'))).
Proof.
  split; [apply merge_events_total|].
  intros d' new_count updated_count M.
  destruct (merge_events_keyed _ _ _ _ _ _ _ M)
    as (kvs & K & -> & _ & _ & Hc & Hl).
  rewrite <- (keyed_length _ _ K).
  repeat split; try lia.
  - intros k. apply store_sets_mem_old.
  - apply store_sets_nodup.
Qed.

Lemma merge_size_conservation_witness :
  let events := [demo_event; stale_event; demo_event; PDict []] in
  let d := [(HStr "a", stale_event)] in
  let d' := [(HStr "a", stale_event); (HStr "x1", demo_event)] in
  merge_events events (d, 0%nat, 0%nat) = Ok (d', 1%nat, 2%nat) /\
  List.length d' = (List.length d + 1)%nat /\
  (1 + 2)%nat = count_ids events.
Proof.
  split; [reflexivity|].
  pose proof (proj2 (merge_size_conservation
                       [demo_event; stale_event; demo_event; PDict []]
                       [(HStr "a", stale_event)]) _ 1%nat 2%nat eq_refl)
    as (L & C & _).
  split; [exact L | exact C].
Defined.

(** ** The normalizer *)

Section Normalizer.

Context {json : JsonLib}.

(** Fields that do not supply a start date leave [begin] as it was. *)
Opaque decode_field.
Lemma scan_fields_begin (fields : list value) :
  forall be be',
    forallb (fun field => negb (names_start_date field) || null_valued field)
      fields = true ->
    scan_fields fields be = Ok be' -> fst be' = fst be.
Proof.
  induction fields as [|field rest IH]; simpl; intros be be' A S.
  - injection S as <-. reflexivity.
  - apply andb_true_iff in A as [A1 A2].
    unfold names_start_date, null_valued in A1.
    destruct field as [| | | | | |items]; simpl in *; try discriminate.
    destruct (assoc "value" items) as [[]|] eqn:V; simpl in *;
      try (apply (IH _ _ A2 S));
      rewrite orb_false_r in A1; apply negb_true_iff in A1; rewrite A1 in S;
      (destruct (decode_field _) as [field_value|]; simpl in S;
       [|discriminate]);
      (destruct (is_str "end_date" _);
       [rewrite (IH _ _ A2 S); reflexivity | apply (IH _ _ A2 S)]).
Qed.
Transparent decode_field.

(** What a kept event looks like. *)
Lemma clean_post_kept (post event : value) :
  clean_post post = Ok (Some event) ->
  has_begin event = true /\ lacks_start_date post = false.
Proof.
  unfold clean_post, lacks_start_date, post_fields. intros C.
  destruct post as [| | | | | |items]; simpl in C; try discriminate.
  destruct (py_replace _ _ _) as [title|]; simpl in C; [|discriminate].
  destruct (py_strip title) as [summary|]; simpl in C; [|discriminate].
  destruct (py_strip _) as [description|]; simpl in C; [|discriminate].
  simpl. destruct (assoc "fields" items) as [fields|]; simpl in *.
  - destruct (truthy fields); simpl in C; [|discriminate].
    destruct (py_iter fields) as [l|]; simpl in *; [|discriminate].
    destruct (scan_fields l (PNone, PNone)) as [be|] eqn:S; simpl in C;
      [|discriminate].
    destruct (truthy (fst be)) eqn:T; [|discriminate].
    injection C as <-. split; [unfold has_begin; simpl; exact T|].
    destruct (forallb _ l) eqn:A; [|reflexivity].
    rewrite (scan_fields_begin _ _ _ A S) in T. discriminate.
  - discriminate.
Qed.

(** A kept event has the six keys, in this order; its summary and its
    description are strings, its id is the id of the post. *)
Lemma clean_post_shape (post event : value) :
  clean_post post = Ok (Some event) ->
  exists id summary description url begin end_,
    event = PDict [("id", id); ("summary", PStr summary);
                   ("description", PStr description); ("url", url);
                   ("begin", begin); ("end", end_)] /\
    py_get post "id" PNone = Ok id /\ truthy begin = true.
Proof.
  unfold clean_post. intros C.
  destruct post as [| | | | | |items]; simpl in C; try discriminate.
  destruct (match assoc "title" items with Some v => v | None => _ end)
    as [| | | | title | |]; simpl in C; try discriminate.
  destruct (match assoc "description" items with Some v => v | None => _ end)
    as [| | | | description | |]; simpl in C; try discriminate.
  match type of C with
  | rbind ?r _ = _ => destruct r as [has|]; simpl in C; [|discriminate]
  end.
  match type of C with
  | rbind ?r _ = _ => destruct r as [be|]; simpl in C; [|discriminate]
  end.
  destruct (truthy (fst be)) eqn:T; [|discriminate].
  injection C as <-. simpl. eauto 10.
Qed.

(** So every normalized event can be merged, unless its id is a list or a
    dict. *)
Lemma clean_post_mergeable (post event : value) :
  clean_post post = Ok (Some event) ->
  mergeable event = true \/
  exists id, py_get post "id" PNone = Ok id /\ py_hash id = Raise TypeError.
Proof.
  intros C. destruct (clean_post_shape _ _ C)
    as (id & summary & description & url & begin & end_ & -> & G & _).
  unfold mergeable. simpl.
  destruct id; simpl; eauto.
Qed.

Lemma clean_posts_kept (posts : list value) :
  forall events, clean_posts posts = Ok events ->
    forall event, In event events ->
      exists post, In post posts /\ clean_post post = Ok (Some event).
Proof.
  induction posts as [|post rest IH]; simpl; intros events C event I.
  - injection C as <-. contradiction.
  - destruct (clean_post post) as [kept|] eqn:P; simpl in C; [|discriminate].
    destruct (clean_posts rest) as [cleaned|]; simpl in C; [|discriminate].
    injection C as <-.
    assert (R : In event cleaned ->
                exists p, (post = p \/ In p rest) /\ clean_post p = Ok (Some event)).
    { intros I'. destruct (IH _ eq_refl _ I') as (p & Ip & Cp). eauto. }
    destruct kept as [e|]; [|auto].
    destruct I as [<-|I]; [eauto | auto].
Qed.

(** Past its guard, [clean_data] is the loop over the posts. *)
Lemma clean_data_posts (raw_data : value) (events : list value) :
  clean_data raw_data = Ok events ->
  events = [] \/ clean_posts (payload_posts raw_data) = Ok events.
Proof.
  unfold clean_data, payload_posts. intros C.
  destruct (truthy raw_data); simpl in C; [|injection C; auto].
  destruct (py_in "data" raw_data) as [[]|]; simpl in C;
    [| injection C; auto | discriminate].
  destruct (py_getitem raw_data "data") as [data|]; simpl in *; [|discriminate].
  destruct (py_in "posts" data) as [[]|]; simpl in C;
    [| injection C; auto | discriminate].
  destruct (py_getitem data "posts") as [posts|]; simpl in *; [|discriminate].
  destruct (py_in "nodes" posts) as [[]|]; simpl in C;
    [| injection C; auto | discriminate].
  destruct (py_getitem posts "nodes") as [nodes|]; simpl in *; [|discriminate].
  destruct (py_iter nodes); simpl in *; [auto | discriminate].
Qed.

(** Every event of a normalized list has a true [begin] and comes from a
    post of the payload that has a start date. *)
Lemma clean_data_events (raw_data : value) (events : list value) :
  clean_data raw_data = Ok events ->
  forall event, In event events ->
    has_begin event = true /\
    exists post,
      In post (payload_posts raw_data) /\
      clean_post post = Ok (Some event) /\
      lacks_start_date post = false.
Proof.
  intros C event I.
  destruct (clean_data_posts _ _ C) as [->|P]; [contradiction|].
  destruct (clean_posts_kept _ _ P _ I) as (post & Ip & Cp).
  destruct (clean_post_kept _ _ Cp) as [B L]. eauto.
Qed.

(** C4.  A post whose start date is absent or null is never turned into an
    event; and every event of a normalized list has a true [begin] and
    comes from a post of the payload that has a start date. *)
Theorem filter_law :
  (forall post event,
     lacks_start_date post = true -> clean_post post <> Ok (Some event)) /\
  (forall raw_data events,
     clean_data raw_data = Ok events ->
     forall event, In event events ->
       has_begin event = true /\
       exists post,
         In post (payload_posts raw_data) /\
         clean_post post = Ok (Some event) /\
         lacks_start_date post = false).
Proof.
  split.
  - intros post event L C. apply clean_post_kept in C as [_ C]. congruence.
  - exact clean_data_events.
Qed.

(** The guard of [clean_data] on payloads made of mappings: a false
    payload, or a mapping without one of the keys on the path, gives the
    empty list. *)
Lemma clean_data_guard (raw_data : value) :
  (truthy raw_data = false -> clean_data raw_data = Ok []) /\
  (forall items, raw_data = PDict items -> assoc "data" items = None ->
     clean_data raw_data = Ok []) /\
  (forall items data, raw_data = PDict items ->
     assoc "data" items = Some (PDict data) -> assoc "posts" data = None ->
     clean_data raw_data = Ok []) /\
  (forall items data posts, raw_data = PDict items ->
     assoc "data" items = Some (PDict data) ->
     assoc "posts" data = Some (PDict posts) -> assoc "nodes" posts = None ->
     clean_data raw_data = Ok []).
Proof.
  unfold clean_data. split; [intros ->; reflexivity|].
  split; [|split].
  - intros items -> D. destruct (truthy (PDict items)); simpl; [|reflexivity].
    rewrite D. reflexivity.
  - intros items data -> D P.
    destruct (truthy (PDict items)); simpl; [|reflexivity].
    rewrite D. simpl. rewrite P. reflexivity.
  - intros items data posts -> D P N.
    destruct (truthy (PDict items)); simpl; [|reflexivity].
    rewrite D. simpl. rewrite P. simpl. rewrite N. reflexivity.
Qed.

(** C7.  The guard tests [in] on whatever it finds under a key.  The
    response [{"data": null}], which has no [posts], makes ['posts' in None]
    raise: the normalizer fails instead of returning the empty list. *)
Theorem shape_guard_null_data :
  clean_data (PDict [("data", PNone)]) = Raise TypeError.
Proof. reflexivity. Qed.

(** C9.  A payload that passes the guard and holds a post whose title is
    null: [post.get('title', 'No Title')] is [None], which has no [replace];
    the normalizer raises instead of returning a list. *)
Theorem normalizer_null_title :
  clean_data (PDict [("data", PDict [("posts", PDict [("nodes", PList
    [PDict [("id", PStr "x1"); ("title", PNone)]])])])])
  = Raise AttributeError.
Proof. reflexivity. Qed.

(** An absent title falls back to the placeholder, an absent description
    and an absent url to the empty string. *)
Lemma clean_post_defaults (id begin : string) :
  json_loads begin = Raise JSONDecodeError -> begin <> ""%string ->
  clean_post (PDict [("id", PStr id);
                     ("fields", PList [PDict [("key", PStr "start_date");
                                              ("value", PStr begin)]])])
  = Ok (Some (PDict [("id", PStr id); ("summary", PStr "No Title");
                     ("description", PStr ""); ("url", PStr "");
                     ("begin", PStr begin); ("end", PNone)])).
Proof.
  intros D N. unfold clean_post. simpl. unfold decode_field. rewrite D. simpl.
  destruct (begin =? "")%string eqn:E; [apply String.eqb_eq in E; contradiction|].
  reflexivity.
Qed.

End Normalizer.

Lemma filter_law_witness :
  lacks_start_date null_start_post = true /\
  clean_post null_start_post <> Ok (Some demo_event) /\
  clean_data demo_payload = Ok [demo_event] /\
  has_begin demo_event = true.
Proof.
  split; [reflexivity|].
  split; [exact (proj1 filter_law null_start_post demo_event eq_refl)|].
  split; [reflexivity|].
  exact (proj1 (proj2 filter_law demo_payload [demo_event] eq_refl
                  demo_event (or_introl eq_refl))).
Defined.

(** ** The store file *)

Section Store.

Context {json : JsonLib}.

(** X30.  A store file that is absent, empty, or on whose text
    [json.loads] raises [JSONDecodeError]: [load_from_file] returns the empty
    list without raising, leaves the file system alone, and the dictionary
    built from it is empty. *)
Theorem load_recovery (fs : filesystem) (filename : string) :
  (fs filename = Absent \/
   fs filename = Content "" \/
   exists text, fs filename = Content text /\
                json_loads text = Raise JSONDecodeError) ->
  load_from_file filename fs = (Ok (PList []), fs) /\
  (filename = CLEANED_DATA_FILE -> load_store fs = (Ok [], fs)).
Proof.
  intros H.
  assert (L : load_from_file filename fs = (Ok (PList []), fs)).
  { unfold load_from_file, path_exists, read_text.
    destruct H as [-> | [-> | (text & -> & D)]]; simpl; try reflexivity.
    destruct (text =? "")%string; simpl; [reflexivity|].
    rewrite D. reflexivity. }
  split; [exact L|].
  intros ->. unfold load_store, io_bind. rewrite L. reflexivity.
Qed.

(** The other ways of a store file: one that cannot be opened is recovered
    from as well; one that is not UTF-8 is not. *)
Lemma load_from_file_unreadable (fs : filesystem) (filename : string) :
  (fs filename = Unopenable ->
   load_from_file filename fs = (Ok (PList []), fs)) /\
  (fs filename = Undecodable ->
   load_from_file filename fs = (Raise UnicodeDecodeError, fs)).
Proof.
  unfold load_from_file, path_exists, read_text.
  split; intros ->; reflexivity.
Qed.

(** C5.  Not every corrupt store file is recovered from.  The [except]
    clause names [JSONDecodeError] and [IOError] only: a file whose bytes are
    not UTF-8 makes [f.read()] raise [UnicodeDecodeError], and a text so
    deeply nested that [json.loads] raises [RecursionError] is not caught
    either; [load_from_file] raises in both cases. *)
Theorem load_corrupt_raises (fs : filesystem) (filename : string) :
  (forall writable, fs filename = Regular Bytes true writable ->
     load_from_file filename fs = (Raise UnicodeDecodeError, fs)) /\
  (forall text writable,
     fs filename = Regular (Text text) true writable -> text <> ""%string ->
     json_loads text = Raise RecursionError ->
     load_from_file filename fs = (Raise RecursionError, fs)).
Proof.
  unfold load_from_file, path_exists, read_text. split.
  - intros w ->. reflexivity.
  - intros text w -> N R. simpl. apply String.eqb_neq in N. rewrite N, R.
    reflexivity.
Qed.

End Store.

Lemma load_corrupt_raises_witness :
  load_from_file CLEANED_DATA_FILE garbled_store
  = (Raise UnicodeDecodeError, garbled_store) /\
  @load_from_file nesting_json CLEANED_DATA_FILE (with_store "[[[[[[[[")
  = (Raise RecursionError, with_store "[[[[[[[[").
Proof.
  split.
  - exact (proj1 (@load_corrupt_raises json_fixture garbled_store
                    CLEANED_DATA_FILE) true eq_refl).
  - exact (proj2 (@load_corrupt_raises nesting_json (with_store "[[[[[[[[")
                    CLEANED_DATA_FILE) "[[[[[[[[" true eq_refl
             ltac:(discriminate) eq_refl).
Defined.

Lemma load_recovery_witness :
  load_from_file CLEANED_DATA_FILE no_files = (Ok (PList []), no_files) /\
  load_from_file CLEANED_DATA_FILE (with_store "") = (Ok (PList []), with_store "") /\
  load_from_file CLEANED_DATA_FILE (with_store "[{")
  = (Ok (PList []), with_store "[{").
Proof.
  split; [|split].
  - exact (proj1 (load_recovery no_files CLEANED_DATA_FILE (or_introl eq_refl))).
  - exact (proj1 (load_recovery (with_store "") CLEANED_DATA_FILE
                    (or_intror (or_introl eq_refl)))).
  - exact (proj1 (load_recovery (with_store "[{") CLEANED_DATA_FILE
                    (or_intror (or_intror (ex_intro _ "[{" (conj eq_refl eq_refl)))))).
Defined.

(** ** The calendar renderer *)

Section Renderer.

Context {ics : IcsLib}.

(** Events that all fail in the [try] leave the calendar as it is, unless
    the handler itself raises. *)
Lemma add_events_failing (events : list value) :
  forall cal,
    forallb (fun event_data => negb (renders event_data)) events = true ->
    add_events events cal = Ok cal \/ exists e, add_events events cal = Raise e.
Proof.
  induction events as [|event_data rest IH]; simpl; intros cal A; [auto|].
  apply andb_true_iff in A as [A1 A2]. apply negb_true_iff in A1.
  unfold renders in A1. unfold events_add.
  destruct (build_event event_data) as [event|]; simpl in *.
  - destruct (event_hash event); simpl in *; [discriminate|].
    destruct (py_get event_data "summary" PNone); simpl; eauto.
  - destruct (py_get event_data "summary" PNone); simpl; eauto.
Qed.

(** X29.  When the loop leaves the calendar without an entry, the renderer
    returns without touching the file system.  That is so for an empty list
    of events, and when every event fails in the [try]: then the calendar is
    empty or the handler has raised, and no file is written either way. *)
Theorem empty_render_guard (events : list value) (filename : string)
    (fs : filesystem) :
  (add_events events [] = Ok [] ->
   create_ics_file events filename fs = (Ok tt, fs)) /\
  (events = [] -> create_ics_file events filename fs = (Ok tt, fs)) /\
  (forallb (fun event_data => negb (renders event_data)) events = true ->
   snd (create_ics_file events filename fs) = fs /\
   (add_events events [] = Ok [] \/ exists e, add_events events [] = Raise e)).
Proof.
  unfold create_ics_file, io_bind, io_lift, io_ret.
  split; [intros ->; reflexivity|].
  split; [intros ->; reflexivity|].
  intros A. destruct (add_events_failing events [] A) as [E|[e E]];
    rewrite E; simpl; eauto.
Qed.

(** A calendar with an entry: the file is opened, and it gets what
    [f.writelines] could write. *)
Lemma create_ics_file_writes (events : list value) (filename : string)
    (fs : filesystem) (cal : list vevent) :
  add_events events [] = Ok cal -> cal <> [] ->
  can_write (fs filename) = true ->
  create_ics_file events filename fs
  = (match calendar_error cal with
     | None => Ok tt
     | Some e => Raise e
     end, fs_write filename (calendar_lines cal) fs).
Proof.
  unfold create_ics_file, io_bind, io_lift, write_text. intros -> N W.
  destruct cal; [contradiction|]. rewrite W. reflexivity.
Qed.

(** C6.  The guard is on [cal.events], and the file is opened, and so
    emptied, before the lines of the calendar are made.  When an entry went
    through the [try] and the calendar cannot be written, [f.writelines]
    raises: nothing was rendered, and the destination file is overwritten all
    the same, with whatever reached it before the exception. *)
Theorem render_failure_clobbers (events : list value) (filename : string)
    (fs : filesystem) (cal : list vevent) (e : exn) :
  add_events events [] = Ok cal -> cal <> [] ->
  calendar_error cal = Some e ->
  can_write (fs filename) = true ->
  create_ics_file events filename fs
  = (Raise e, fs_write filename (calendar_lines cal) fs).
Proof.
  intros A N E W. rewrite (create_ics_file_writes _ _ _ _ A N W), E.
  reflexivity.
Qed.

End Renderer.

Lemma render_failure_clobbers_witness :
  let good := with_calendar "BEGIN:VCALENDAR" in
  add_events [numbered_url_event] [] = Ok [numbered_url_entry] /\
  create_ics_file [numbered_url_event] ICS_FILE good
  = (Raise AttributeError, fs_write ICS_FILE "" good) /\
  good ICS_FILE = Content "BEGIN:VCALENDAR" /\
  fs_write ICS_FILE "" good ICS_FILE = Content "".
Proof.
  split; [reflexivity|]. split; [|split; reflexivity].
  exact (@render_failure_clobbers ics_fixture [numbered_url_event] ICS_FILE
           (with_calendar "BEGIN:VCALENDAR") [numbered_url_entry]
           AttributeError eq_refl ltac:(discriminate) eq_refl eq_refl).
Defined.

Lemma empty_render_guard_witness :
  let good := with_calendar "BEGIN:VCALENDAR" in
  add_events [stale_event; PDict []] [] = Ok [] /\
  create_ics_file [stale_event; PDict []] ICS_FILE good = (Ok tt, good) /\
  create_ics_file [] ICS_FILE good = (Ok tt, good) /\
  snd (create_ics_file [stale_event; PInt 7] ICS_FILE good) = good.
Proof.
  split; [reflexivity|].
  split; [|split].
  - exact (proj1 (empty_render_guard [stale_event; PDict []] ICS_FILE
                    (with_calendar "BEGIN:VCALENDAR")) eq_refl).
  - exact (proj1 (proj2 (empty_render_guard [] ICS_FILE
                           (with_calendar "BEGIN:VCALENDAR"))) eq_refl).
  - exact (proj1 (proj2 (proj2 (empty_render_guard [stale_event; PInt 7]
                                  ICS_FILE (with_calendar "BEGIN:VCALENDAR")))
                    eq_refl)).
Defined.

(** ** The reconciler *)

Section Reconciler.

Context {json : JsonLib} {ics : IcsLib}.

Lemma load_from_file_frame (filename : string) (fs : filesystem) :
  snd (load_from_file filename fs) = fs.
Proof.
  unfold load_from_file. destruct (negb (path_exists filename fs)); reflexivity.
Qed.

Lemma load_store_frame (fs : filesystem) : snd (load_store fs) = fs.
Proof.
  unfold load_store, io_bind, io_lift.
  pose proof (load_from_file_frame CLEANED_DATA_FILE fs) as F.
  destruct (load_from_file CLEANED_DATA_FILE fs) as [[existing|e] fs'];
    simpl in *; exact F.
Qed.

(** C8.  When [fetch_data] returns nothing (a false value), the run leaves
    every file as it was, and it ends as soon as the store is loaded: it
    returns normally when loading did. *)
Theorem no_data_no_op (raw_response_data : value) (fs : filesystem) :
  truthy raw_response_data = false ->
  snd (main raw_response_data fs) = fs /\
  fst (main raw_response_data fs) = (_ <- fst (load_store fs) ;; Ok tt) /\
  (forall events_dict, fst (load_store fs) = Ok events_dict ->
     main raw_response_data fs = (Ok tt, fs)).
Proof.
  intros T. unfold main, io_bind. rewrite T. simpl.
  pose proof (load_store_frame fs) as F.
  destruct (load_store fs) as [[events_dict|e] fs']; simpl in *; subst fs'.
  - repeat split; reflexivity.
  - repeat split; try reflexivity. discriminate.
Qed.

(** *** The events of the dictionary *)

Lemma store_set_values (k : hkey) (v : value) (d : store) :
  forall e, In e (store_values (store_set k v d)) ->
    e = v \/ In e (store_values d).
Proof.
  unfold store_values.
  induction d as [|[k0 v0] d IH]; simpl; intros e I.
  - destruct I as [<-|[]]. auto.
  - destruct (hkey_eqb k k0); simpl in I.
    + destruct I as [<-|I]; auto.
    + destruct I as [<-|I]; [auto|]. destruct (IH _ I); auto.
Qed.

Lemma store_sets_values (kvs : list (hkey * value)) :
  forall d e, In e (store_values (store_sets kvs d)) ->
    In e (map snd kvs) \/ In e (store_values d).
Proof.
  induction kvs as [|[k v] kvs IH]; simpl; intros d e I; [auto|].
  destruct (IH _ _ I) as [I'|I']; [auto|].
  destruct (store_set_values _ _ _ _ I'); auto.
Qed.

(** The dict comprehension keeps events with a non-empty id only. *)
Lemma index_events_has_id (events : list value) :
  forall d d',
    index_events events d = Ok d' ->
    (forall e, In e (store_values d) -> has_id e = true) ->
    forall e, In e (store_values d') -> has_id e = true.
Proof.
  induction events as [|event rest IH]; simpl; intros d d' X H e I.
  - injection X as <-. auto.
  - destruct (py_get event "id" PNone) as [id|] eqn:G; simpl in X;
      [|discriminate].
    destruct (truthy id) eqn:T; [|eapply IH; eauto].
    destruct (py_getitem event "id"); simpl in X; [|discriminate].
    destruct (py_hash _) as [key|]; simpl in X; [|discriminate].
    eapply IH; [exact X | | exact I].
    intros e' I'. destruct (store_set_values _ _ _ _ I') as [->|]; [|auto].
    unfold has_id. rewrite G. exact T.
Qed.

Lemma load_store_has_id (fs : filesystem) (d0 : store) :
  fst (load_store fs) = Ok d0 ->
  forall e, In e (store_values d0) -> has_id e = true.
Proof.
  unfold load_store, io_bind, io_lift. intros L.
  destruct (load_from_file CLEANED_DATA_FILE fs) as [[existing|] fs'];
    simpl in L; [|discriminate].
  destruct (py_iter existing) as [events|]; simpl in L; [|discriminate].
  apply (index_events_has_id _ _ _ L). intros e [].
Qed.

(** What the merge step adds to the dictionary has an id and a start. *)
Lemma merge_step_values (d0 d : store) (raw_response_data : value) :
  merge_step d0 raw_response_data = Ok d ->
  forall e, In e (store_values d) ->
    In e (store_values d0) \/ (has_id e = true /\ has_begin e = true).
Proof.
  unfold merge_step. intros M e I.
  destruct (clean_data raw_response_data) as [newly|] eqn:C; simpl in M;
    [|discriminate].
  destruct (merge_events newly (d0, 0%nat, 0%nat)) as [[[d' n] u]|] eqn:ME.
  - assert (d = d') as ->.
    { destruct newly; simpl in *; [|congruence].
      injection ME as <- _ _. congruence. }
    destruct (merge_events_keyed _ _ _ _ _ _ _ ME) as (kvs & K & -> & _).
    destruct (store_sets_values _ _ _ I) as [I'|]; [|auto].
    apply in_map_iff in I' as ([k e'] & <- & I'). simpl.
    destruct (keyed_values _ _ K _ _ I') as [In' Hid].
    right. split; [exact Hid|].
    apply (clean_data_events _ _ C _ In').
  - destruct newly; simpl in M; [|discriminate].
    injection M as <-. auto.
Qed.

(** C2, as the code has it.  After the merge step every event of the
    dictionary has a non-empty id.  An event that was not carried over from
    the store file has a true [begin]; an event of the store file is kept
    as it was loaded, so all events have a [begin] when the loaded ones
    do. *)
Theorem identity_invariant (fs : filesystem) (raw_response_data : value)
    (d0 d : store) :
  fst (load_store fs) = Ok d0 ->
  merge_step d0 raw_response_data = Ok d ->
  (forall e, In e (store_values d) -> has_id e = true) /\
  (forall e, In e (store_values d) ->
     has_begin e = true \/ In e (store_values d0)) /\
  ((forall e, In e (store_values d0) -> has_begin e = true) ->
   forall e, In e (store_values d) -> has_begin e = true).
Proof.
  intros L M.
  pose proof (load_store_has_id _ _ L) as H0.
  pose proof (merge_step_values _ _ _ M) as V.
  repeat split.
  - intros e I. destruct (V e I) as [I0|[Hid _]]; auto.
  - intros e I. destruct (V e I) as [I0|[_ Hb]]; auto.
  - intros B e I. destruct (V e I) as [I0|[_ Hb]]; auto.
Qed.

(** A run that fetched something saves the events of the merged
    dictionary, in its order, before it renders them; it stops at the save
    when the store file cannot be opened or [json.dump] raises. *)
Lemma main_saves_store (raw_response_data : value) (fs : filesystem)
    (d0 d : store) :
  fst (load_store fs) = Ok d0 ->
  truthy raw_response_data = true ->
  merge_step d0 raw_response_data = Ok d ->
  main raw_response_data fs
  = if can_write (fs CLEANED_DATA_FILE)
    then
      let fs1 :=
        fs_write CLEANED_DATA_FILE (json_dumps (PList (store_values d))) fs in
      match json_dump_error (PList (store_values d)) with
      | Some e => (Raise e, fs1)
      | None => create_ics_file (store_values d) ICS_FILE fs1
      end
    else (Raise IOError, fs).
Proof.
  intros L T M. unfold main, io_bind at 1.
  pose proof (load_store_frame fs) as F.
  destruct (load_store fs) as [[events_dict|e] fs']; simpl in *; subst fs';
    [|discriminate].
  injection L as ->. rewrite T. simpl.
  unfold io_bind, io_lift. rewrite M.
  unfold save_to_file, write_text.
  destruct (can_write (fs CLEANED_DATA_FILE)); [|reflexivity].
  destruct (json_dump_error (PList (store_values d))); reflexivity.
Qed.

End Reconciler.

Lemma no_data_no_op_witness :
  main PNone (with_store stale_text) = (Ok tt, with_store stale_text) /\
  snd (main (PDict []) (with_store "5")) = with_store "5".
Proof.
  split.
  - exact (proj2 (proj2 (no_data_no_op PNone (with_store stale_text) eq_refl))
             [(HStr "a", stale_event)] eq_refl).
  - exact (proj1 (no_data_no_op (PDict []) (with_store "5") eq_refl)).
Defined.

(** The end-to-end scenario: from no files and the demo payload, the store
    file holds the one event [x1], and the calendar file is written. *)
Example end_to_end :
  clean_data demo_payload = Ok [demo_event] /\
  merge_step [] demo_payload = Ok [(HStr "x1", demo_event)] /\
  fst (main demo_payload no_files) = Ok tt /\
  snd (main demo_payload no_files) CLEANED_DATA_FILE
  = Content (json_dumps (PList [demo_event])) /\
  exists entry,
    add_events [demo_event] [] = Ok [entry] /\
    snd (main demo_payload no_files) ICS_FILE
    = Content (calendar_lines [entry]).
Proof.
  repeat split. eexists. split; reflexivity.
Qed.

Lemma identity_invariant_witness :
  let d := [(HStr "a", stale_event); (HStr "x1", demo_event)] in
  fst (load_store (with_store stale_text)) = Ok [(HStr "a", stale_event)] /\
  merge_step [(HStr "a", stale_event)] demo_payload = Ok d /\
  (forall e, In e (store_values d) -> has_id e = true).
Proof.
  split; [reflexivity|]. split; [reflexivity|].
  exact (proj1 (identity_invariant (with_store stale_text) demo_payload
                  [(HStr "a", stale_event)] _ eq_refl eq_refl)).
Defined.

(** The store file holds an event without a start, left there by hand or
    by an older version: the run keeps it, and the merged dictionary holds an
    event whose [begin] is null. *)
Lemma identity_invariant_counterexample :
  let d := [(HStr "a", stale_event); (HStr "x1", demo_event)] in
  fst (load_store (with_store stale_text)) = Ok [(HStr "a", stale_event)] /\
  merge_step [(HStr "a", stale_event)] demo_payload = Ok d /\
  ~ (forall e, In e (store_values d) -> has_id e = true /\ has_begin e = true).
Proof.
  split; [reflexivity|]. split; [reflexivity|].
  intros H. destruct (H stale_event (or_introl eq_refl)) as [_ B].
  discriminate B.
Qed.

(** * Further properties *)

(** ** Strings *)

Lemma prefix_of_app (p r : string) : prefix_of p (p ++ r) = true.
Proof.
  induction p as [|c p IH]; simpl; [reflexivity|].
  rewrite Ascii.eqb_refl. exact IH.
Qed.

Lemma prefix_of_split (p : string) :
  forall s, prefix_of p s = true -> s = (p ++ drop (String.length p) s)%string.
Proof.
  induction p as [|c p IH]; simpl; intros s P; [reflexivity|].
  destruct s as [|c' s]; [discriminate|].
  apply andb_true_iff in P as [E P]. apply Ascii.eqb_eq in E. subst c'.
  simpl. f_equal. apply IH, P.
Qed.

Lemma drop_app (p r : string) : drop (String.length p) (p ++ r) = r.
Proof. induction p as [|c p IH]; simpl; [destruct r; reflexivity | exact IH]. Qed.

Lemma string_app_assoc (a b c : string) :
  ((a ++ b) ++ c = a ++ (b ++ c))%string.
Proof. induction a as [|x a IH]; simpl; [reflexivity | rewrite IH; reflexivity]. Qed.

Lemma string_app_nil (a : string) : (a ++ "" = a)%string.
Proof. induction a as [|x a IH]; simpl; [reflexivity | rewrite IH; reflexivity]. Qed.

Lemma lstrip_eq (s : string) :
  lstrip s =
  match s with
  | EmptyString => EmptyString
  | String c1 s1 =>
      if space1 c1 then lstrip s1
      else
        match s1 with
        | EmptyString => s
        | String c2 s2 =>
            if space2 c1 c2 then lstrip s2
            else
              match s2 with
              | EmptyString => s
              | String c3 s3 => if space3 c1 c2 c3 then lstrip s3 else s
              end
        end
  end.
Proof. destruct s; reflexivity. Qed.

(** Induction on strings that reaches three bytes back. *)
Lemma string_ind3 (P : string -> Prop) :
  P EmptyString ->
  (forall c1, P (String c1 EmptyString)) ->
  (forall c1 c2, P (String c1 (String c2 EmptyString))) ->
  (forall c1 c2 c3 s,
     P s -> P (String c3 s) -> P (String c2 (String c3 s)) ->
     P (String c1 (String c2 (String c3 s)))) ->
  forall s, P s.
Proof.
  intros H0 H1 H2 H3.
  assert (A : forall s, P s /\ (forall c, P (String c s)) /\
                        (forall c c', P (String c (String c' s)))).
  { induction s as [|c3 s (Ps & Ps1 & Ps2)].
    - repeat split; auto.
    - repeat split; auto. }
  intros s. apply A.
Qed.

Lemma lstrip_split (s : string) :
  exists a, s = (a ++ lstrip s)%string /\ blank a = true.
Proof.
  induction s as [|c1|c1 c2|c1 c2 c3 s (a3 & E3 & B3) (a2 & E2 & B2) (a1 & E1 & B1)]
    using string_ind3.
  - exists ""%string. split; reflexivity.
  - rewrite lstrip_eq. destruct (space1 c1) eqn:S1.
    + exists (String c1 ""). split; [reflexivity|].
      unfold blank. cbn [lstrip]. rewrite S1. reflexivity.
    + exists ""%string. split; reflexivity.
  - rewrite lstrip_eq. destruct (space1 c1) eqn:S1.
    + rewrite lstrip_eq. destruct (space1 c2) eqn:S1'.
      * exists (String c1 (String c2 "")). split; [reflexivity|].
        unfold blank. cbn [lstrip]. rewrite S1, S1'. reflexivity.
      * exists (String c1 ""). split; [reflexivity|].
        unfold blank. cbn [lstrip]. rewrite S1. reflexivity.
    + destruct (space2 c1 c2) eqn:S2.
      * exists (String c1 (String c2 "")). split; [reflexivity|].
        unfold blank. cbn [lstrip]. rewrite S1, S2. reflexivity.
      * exists ""%string. split; reflexivity.
  - rewrite (lstrip_eq (String c1 _)). destruct (space1 c1) eqn:S1.
    + exists (String c1 a1). split.
      * cbn [append]. rewrite <- E1. reflexivity.
      * unfold blank in *. rewrite (lstrip_eq (String c1 a1)), S1. exact B1.
    + destruct (space2 c1 c2) eqn:S2.
      * exists (String c1 (String c2 a2)). split.
        -- cbn [append]. rewrite <- E2. reflexivity.
        -- unfold blank in *. rewrite (lstrip_eq (String c1 _)), S1, S2. exact B2.
      * destruct (space3 c1 c2 c3) eqn:S3.
        -- exists (String c1 (String c2 (String c3 a3))). split.
           ++ cbn [append]. rewrite <- E3. reflexivity.
           ++ unfold blank in *. rewrite (lstrip_eq (String c1 _)), S1, S2, S3.
              exact B3.
        -- exists ""%string. split; reflexivity.
Qed.

Lemma lstrip_start (s : string) : starts_with_space (lstrip s) = false.
Proof.
  induction s as [|c1|c1 c2|c1 c2 c3 s I3 I2 I1] using string_ind3.
  - reflexivity.
  - rewrite lstrip_eq. destruct (space1 c1) eqn:S1; [reflexivity|].
    cbn [starts_with_space]. rewrite S1. reflexivity.
  - rewrite lstrip_eq. destruct (space1 c1) eqn:S1.
    + rewrite lstrip_eq. destruct (space1 c2) eqn:S1'; [reflexivity|].
      cbn [starts_with_space]. rewrite S1'. reflexivity.
    + destruct (space2 c1 c2) eqn:S2; [reflexivity|].
      cbn [starts_with_space]. rewrite S1, S2. reflexivity.
  - rewrite (lstrip_eq (String c1 _)). destruct (space1 c1) eqn:S1; [exact I1|].
    destruct (space2 c1 c2) eqn:S2; [exact I2|].
    destruct (space3 c1 c2 c3) eqn:S3; [exact I3|].
    cbn [starts_with_space]. rewrite S1, S2, S3. reflexivity.
Qed.

(** White space in front does not count. *)
Lemma lstrip_blank (a : string) :
  forall b, blank a = true -> lstrip (a ++ b) = lstrip b.
Proof.
  unfold blank.
  induction a as [|c1|c1 c2|c1 c2 c3 a I3 I2 I1] using string_ind3; intros b B.
  - reflexivity.
  - rewrite lstrip_eq in B. cbn [append]. rewrite (lstrip_eq (String c1 b)).
    destruct (space1 c1); [reflexivity | discriminate].
  - rewrite lstrip_eq in B. cbn [append].
    rewrite (lstrip_eq (String c1 _)).
    destruct (space1 c1).
    + rewrite lstrip_eq in B. rewrite (lstrip_eq (String c2 b)).
      destruct (space1 c2); [reflexivity | discriminate].
    + destruct (space2 c1 c2); [reflexivity | discriminate].
  - rewrite lstrip_eq in B. cbn [append].
    rewrite (lstrip_eq (String c1 _)).
    destruct (space1 c1); [exact (I1 b B)|].
    destruct (space2 c1 c2); [exact (I2 b B)|].
    destruct (space3 c1 c2 c3); [exact (I3 b B) | discriminate].
Qed.

Lemma rstrip_split (s : string) :
  exists b, s = (rstrip s ++ b)%string /\ blank b = true.
Proof.
  induction s as [|c s (b & E & B)]; cbn [rstrip].
  - exists ""%string. split; reflexivity.
  - destruct (blank (String c s)) eqn:W.
    + exists (String c s). split; [reflexivity | exact W].
    + exists b. split; [|exact B]. cbn [append]. rewrite <- E. reflexivity.
Qed.

(** No white space is left at the end: no suffix is made of it. *)
Lemma rstrip_suffix (s : string) :
  forall x w, rstrip s = (x ++ w)%string -> blank w = true -> w = ""%string.
Proof.
  induction s as [|c s IH]; cbn [rstrip]; intros x w E B.
  - destruct x; [simpl in E; congruence | discriminate].
  - destruct (blank (String c s)) eqn:W.
    + destruct x; [simpl in E; congruence | discriminate].
    + destruct x as [|c' x]; cbn [append] in E.
      * destruct (rstrip_split s) as (b & Es & Bb).
        assert (Ew : String c s = (w ++ b)%string).
        { rewrite <- E. cbn [append]. f_equal. exact Es. }
        assert (N : blank (String c s) = true).
        { rewrite Ew. unfold blank in *. rewrite lstrip_blank by exact B.
          exact Bb. }
        congruence.
      * injection E as _ E. exact (IH _ _ E B).
Qed.

Lemma one_space_blank (w : string) :
  one_space w = true -> blank w = true /\ w <> ""%string.
Proof.
  unfold blank. destruct w as [|c1 [|c2 [|c3 [|c4 w]]]]; simpl one_space;
    try discriminate; intros O; (split; [|discriminate]).
  - rewrite lstrip_eq, O. reflexivity.
  - rewrite lstrip_eq. destruct (space1 c1) eqn:S1; [|rewrite O; reflexivity].
    unfold space1, space2 in *.
    apply andb_true_iff in O as [A _]. apply Nat.eqb_eq in A. rewrite A in S1.
    discriminate.
  - rewrite lstrip_eq. destruct (space1 c1) eqn:S1.
    + unfold space1, space3 in *.
      destruct (Nat.eqb_spec (nat_of_ascii c1) 225) as [A|];
        [rewrite A in S1; discriminate|].
      destruct (Nat.eqb_spec (nat_of_ascii c1) 226) as [A|];
        [rewrite A in S1; discriminate|].
      destruct (Nat.eqb_spec (nat_of_ascii c1) 227) as [A|];
        [rewrite A in S1; discriminate|].
      discriminate.
    + destruct (space2 c1 c2) eqn:S2; [|rewrite O; reflexivity].
      unfold space2, space3 in *.
      apply andb_true_iff in S2 as [A _]. apply Nat.eqb_eq in A.
      rewrite A in O. discriminate.
Qed.

Lemma ends_with_space_suffix (s : string) :
  ends_with_space s = true ->
  exists x w, s = (x ++ w)%string /\ one_space w = true.
Proof.
  induction s as [|c s IH]; cbn [ends_with_space]; [discriminate|].
  intros E. apply orb_true_iff in E as [O|E].
  - exists ""%string, (String c s). split; [reflexivity | exact O].
  - destruct (IH E) as (x & w & -> & O). exists (String c x), w.
    split; [reflexivity | exact O].
Qed.

Lemma rstrip_end (s : string) : ends_with_space (rstrip s) = false.
Proof.
  destruct (ends_with_space (rstrip s)) eqn:E; [|reflexivity].
  destruct (ends_with_space_suffix _ E) as (x & w & Ew & O).
  destruct (one_space_blank _ O) as [B N].
  elim N. exact (rstrip_suffix _ _ _ Ew B).
Qed.

Lemma starts_with_space_app (p b : string) :
  starts_with_space p = true -> starts_with_space (p ++ b) = true.
Proof.
  destruct p as [|c1 [|c2 [|c3 p]]]; cbn [starts_with_space append];
    try discriminate; intros S.
  - rewrite orb_false_r in S. rewrite S. reflexivity.
  - rewrite orb_false_r in S. apply orb_true_iff in S as [-> | ->];
      [reflexivity|]. rewrite orb_true_l, orb_true_r. reflexivity.
  - exact S.
Qed.

Lemma rstrip_start (s : string) :
  starts_with_space s = false -> starts_with_space (rstrip s) = false.
Proof.
  intros S. destruct (starts_with_space (rstrip s)) eqn:R; [|reflexivity].
  destruct (rstrip_split s) as (b & E & _).
  rewrite E, (starts_with_space_app _ b R) in S. discriminate.
Qed.

Lemma blank_all_space (s : string) : blank s = true -> all_space s = true.
Proof.
  unfold blank.
  induction s as [|c1|c1 c2|c1 c2 c3 s I3 I2 I1] using string_ind3; intros B.
  - reflexivity.
  - rewrite lstrip_eq in B. cbn [all_space].
    destruct (space1 c1); [reflexivity | discriminate].
  - rewrite lstrip_eq in B. cbn [all_space].
    destruct (space1 c1).
    + rewrite lstrip_eq in B.
      destruct (space1 c2); [reflexivity | discriminate].
    + destruct (space2 c1 c2); [reflexivity | discriminate].
  - rewrite lstrip_eq in B.
    change (all_space (String c1 (String c2 (String c3 s))))
      with (space1 c1 && all_space (String c2 (String c3 s))
            || (space2 c1 c2 && all_space (String c3 s)
                || space3 c1 c2 c3 && all_space s)).
    destruct (space1 c1); [rewrite (I1 B); reflexivity|].
    destruct (space2 c1 c2); [rewrite (I2 B); reflexivity|].
    destruct (space3 c1 c2 c3); [rewrite (I3 B); reflexivity | discriminate].
Qed.

(** [strip] takes white space away from both ends, and nothing else. *)
Lemma str_strip_spec (s : string) :
  (exists a b, s = (a ++ str_strip s ++ b)%string /\
               all_space a = true /\ all_space b = true) /\
  starts_with_space (str_strip s) = false /\
  ends_with_space (str_strip s) = false.
Proof.
  unfold str_strip. split; [|split].
  - destruct (lstrip_split s) as (a & E & A).
    destruct (rstrip_split (lstrip s)) as (b & E' & B).
    exists a, b. rewrite <- E', <- E. auto using blank_all_space.
  - apply rstrip_start, lstrip_start.
  - apply rstrip_end.
Qed.

Lemma replace_from_skip (old new : string) (p : string) :
  forall rest,
    replace_from old new (String.length p) (p ++ rest)
    = replace_from old new 0 rest.
Proof.
  induction p as [|c p IH]; intros rest; simpl; [reflexivity | apply IH].
Qed.

(** An occurrence at the head is replaced, and the search goes on after
    it. *)
Lemma str_replace_head (c : ascii) (old new rest : string) :
  str_replace (String c old) new (String c old ++ rest)
  = (new ++ str_replace (String c old) new rest)%string.
Proof.
  unfold str_replace.
  change (String c old ++ rest)%string with (String c (old ++ rest)).
  cbn [replace_from].
  change (String c (old ++ rest)) with (String c old ++ rest)%string.
  rewrite prefix_of_app.
  replace (String.length (String c old) - 1)%nat with (String.length old)
    by (simpl; lia).
  rewrite replace_from_skip. reflexivity.
Qed.

(** A string without an occurrence is left as it is. *)
Lemma str_replace_none (old new : string) :
  forall s, substring_of old s = false -> str_replace old new s = s.
Proof.
  unfold str_replace. induction s as [|c s IH]; intros N; [reflexivity|].
  cbn [substring_of] in N. apply orb_false_iff in N as [P N].
  cbn [replace_from]. rewrite P, IH by exact N. reflexivity.
Qed.

(** ** More on the normalizer *)

Section NormalizerMore.

Context {json : JsonLib}.

(** The text fields of a kept event, from those of its post. *)
Lemma clean_post_text (post event : value) :
  clean_post post = Ok (Some event) ->
  exists t d,
    post_title post = PStr t /\
    py_get post "description" (PStr "") = Ok (PStr d) /\
    py_getitem event "summary"
    = Ok (PStr (str_strip (str_replace COMING_SOON "" t))) /\
    py_getitem event "description" = Ok (PStr (str_strip d)) /\
    py_getitem event "url" = py_get post "url" (PStr "") /\
    py_getitem event "id" = py_get post "id" PNone.
Proof.
  unfold clean_post, post_title. intros C.
  destruct post as [| | | | | |items]; simpl in C; try discriminate.
  simpl.
  destruct (match assoc "title" items with Some v => v | None => _ end)
    as [| | | | t | |]; simpl in C; try discriminate.
  destruct (match assoc "description" items with Some v => v | None => _ end)
    as [| | | | d | |]; simpl in C; try discriminate.
  match type of C with
  | rbind ?r _ = _ => destruct r as [has|]; simpl in C; [|discriminate]
  end.
  match type of C with
  | rbind ?r _ = _ => destruct r as [be|]; simpl in C; [|discriminate]
  end.
  destruct (truthy (fst be)); [|discriminate].
  injection C as <-. exists t, d. repeat split; reflexivity.
Qed.

(** X1.  The summary and the description of a normalized event are
    strings that neither start nor end with white space; the summary is
    the title without the marker, less the white space around it. *)
Theorem normalized_text_trimmed (post event : value) :
  clean_post post = Ok (Some event) ->
  exists t summary description a b,
    post_title post = PStr t /\
    py_getitem event "summary" = Ok (PStr summary) /\
    py_getitem event "description" = Ok (PStr description) /\
    str_replace COMING_SOON "" t = (a ++ summary ++ b)%string /\
    all_space a = true /\ all_space b = true /\
    starts_with_space summary = false /\ ends_with_space summary = false /\
    starts_with_space description = false /\
    ends_with_space description = false.
Proof.
  intros C. destruct (clean_post_text _ _ C) as (t & d & T & _ & S & D & _).
  destruct (str_strip_spec (str_replace COMING_SOON "" t))
    as ((a & b & E & A & B) & S1 & S2).
  destruct (str_strip_spec d) as (_ & D1 & D2).
  exists t, (str_strip (str_replace COMING_SOON "" t)), (str_strip d), a, b.
  repeat split; assumption.
Qed.

(** X2.  The summary of a normalized event: the placeholder when the post
    has no title; the stripped title when the title does not hold the
    marker; the stripped rest when the title is the marker followed by a rest
    that does not hold it. *)
Theorem summary_of_title (post event : value) :
  clean_post post = Ok (Some event) ->
  (forall items, post = PDict items -> assoc "title" items = None ->
     py_getitem event "summary" = Ok (PStr "No Title")) /\
  (forall t, post_title post = PStr t -> substring_of COMING_SOON t = false ->
     py_getitem event "summary" = Ok (PStr (str_strip t))) /\
  (forall r, post_title post = PStr (COMING_SOON ++ r) ->
     substring_of COMING_SOON r = false ->
     py_getitem event "summary" = Ok (PStr (str_strip r))).
Proof.
  intros C. destruct (clean_post_text _ _ C) as (t & d & T & _ & S & _).
  split; [|split].
  - intros items -> N. unfold post_title in T. simpl in T. rewrite N in T.
    injection T as <-. exact S.
  - intros t' T' N. rewrite T' in T. injection T as <-.
    rewrite str_replace_none in S by exact N. exact S.
  - intros r T' N.
    assert (E : t = (COMING_SOON ++ r)%string) by congruence.
    rewrite E in S. unfold COMING_SOON in S, N. rewrite str_replace_head in S.
    rewrite str_replace_none in S by exact N. exact S.
Qed.

(** X3.  The value of a field is decoded when it is a string that
    [json.loads] accepts, and is taken as it is when it is not a string or
    when [json.loads] rejects it; the two exceptions of the [except] clause
    never leave [decode_field]. *)
Theorem decode_field_fallback (v : value) :
  ((forall s, v <> PStr s) -> decode_field v = Ok v) /\
  (forall s, v = PStr s -> json_loads s = Raise JSONDecodeError ->
     decode_field v = Ok v) /\
  (forall s x, v = PStr s -> json_loads s = Ok x -> decode_field v = Ok x) /\
  decode_field v <> Raise JSONDecodeError /\
  decode_field v <> Raise TypeError.
Proof.
  unfold decode_field, try_except. repeat split.
  - intros N. destruct v; try reflexivity. destruct (N s eq_refl).
  - intros s -> D. rewrite D. reflexivity.
  - intros s x -> D. rewrite D. reflexivity.
  - destruct v; try discriminate. destruct (json_loads s) as [|[]]; discriminate.
  - destruct v; try discriminate. destruct (json_loads s) as [|[]]; discriminate.
Qed.

Lemma scan_fields_app (fields fields' : list value) :
  forall be,
    scan_fields (fields ++ fields') be
    = (be' <- scan_fields fields be ;; scan_fields fields' be').
Proof.
  induction fields as [|field rest IH]; intros be; simpl; [reflexivity|].
  destruct (py_get field "key" PNone) as [k|]; simpl; [|reflexivity].
  destruct (py_get field "value" PNone) as [v|]; simpl; [|reflexivity].
  destruct v; try apply IH;
    (destruct (decode_field _); simpl; [|reflexivity]);
    destruct (is_str "start_date" k); try apply IH;
    destruct (is_str "end_date" k); apply IH.
Qed.

(** X4.  One more field at the end of the side list: a field without a
    value changes nothing; a [start_date] field replaces [begin] and an
    [end_date] field replaces [end], whatever came before; a field with
    another key is ignored. *)
Theorem scan_fields_last (fields : list value) (field key v : value)
    (be be1 : value * value) :
  scan_fields fields be = Ok be1 ->
  py_get field "key" PNone = Ok key ->
  py_get field "value" PNone = Ok v ->
  (v = PNone -> scan_fields (fields ++ [field]) be = Ok be1) /\
  (forall x, v <> PNone -> decode_field v = Ok x ->
     scan_fields (fields ++ [field]) be
     = Ok (if is_str "start_date" key then (x, snd be1)
           else if is_str "end_date" key then (fst be1, x)
           else be1)).
Proof.
  intros S K V. rewrite scan_fields_app, S. simpl. rewrite K, V. simpl.
  split.
  - intros ->. reflexivity.
  - intros x N D. destruct v; try (destruct (N eq_refl));
      rewrite D; simpl;
      destruct (is_str "start_date" key); try reflexivity;
      destruct (is_str "end_date" key); reflexivity.
Qed.

(** The loop over the posts keeps their order. *)
Lemma clean_posts_flat (posts events : list value) :
  clean_posts posts = Ok events ->
  events = flat_map kept posts /\
  (List.length events <= List.length posts)%nat.
Proof.
  revert events. induction posts as [|post rest IH]; simpl; intros events C.
  - injection C as <-. split; [reflexivity | simpl; lia].
  - unfold kept at 1.
    destruct (clean_post post) as [k|]; simpl in C; [|discriminate].
    destruct (clean_posts rest) as [cleaned|]; simpl in C; [|discriminate].
    destruct (IH _ eq_refl) as [E L]. injection C as <-.
    destruct k; simpl; rewrite <- E; split; try reflexivity; simpl; lia.
Qed.

Lemma clean_posts_raise (posts : list value) (post : value) (e : exn) :
  In post posts -> clean_post post = Raise e ->
  exists e', clean_posts posts = Raise e'.
Proof.
  induction posts as [|p rest IH]; simpl; intros I C; [contradiction|].
  destruct I as [->|I].
  - rewrite C. simpl. eauto.
  - destruct (clean_post p); simpl; [|eauto].
    destruct (IH I C) as [e' ->]. simpl. eauto.
Qed.

(** A payload with post records passes the guard. *)
Lemma clean_data_payload (raw_data : value) :
  payload_posts raw_data <> [] ->
  clean_data raw_data = clean_posts (payload_posts raw_data).
Proof.
  unfold payload_posts, clean_data. intros N.
  destruct raw_data as [| | | | | |items]; simpl in N; try (destruct (N eq_refl)).
  destruct items as [|item items]; [destruct (N eq_refl)|].
  cbn [truthy negb py_in py_getitem] in *.
  destruct (assoc "data" (item :: items)) as [data|]; simpl in *;
    [|destruct (N eq_refl)].
  destruct data as [| | | | | |ditems]; simpl in N; try (destruct (N eq_refl)).
  cbn [py_in py_getitem] in *.
  destruct (assoc "posts" ditems) as [posts|]; simpl in *;
    [|destruct (N eq_refl)].
  destruct posts as [| | | | | |pitems]; simpl in N; try (destruct (N eq_refl)).
  cbn [py_in py_getitem] in *.
  destruct (assoc "nodes" pitems) as [nodes|]; simpl in *;
    [|destruct (N eq_refl)].
  destruct (py_iter nodes); simpl in *; [reflexivity | destruct (N eq_refl)].
Qed.

(** X5.  One post that cannot be cleaned makes the whole normalization
    fail: no event of the other posts is returned. *)
Theorem clean_data_all_or_nothing (raw_data post : value) (e : exn) :
  In post (payload_posts raw_data) ->
  clean_post post = Raise e ->
  exists e', clean_data raw_data = Raise e'.
Proof.
  intros I C. rewrite clean_data_payload.
  - exact (clean_posts_raise _ _ _ I C).
  - intros E. rewrite E in I. contradiction.
Qed.

(** X6.  A normalized list holds the events of the kept posts of the
    payload, in the order of the posts, at most one for each. *)
Theorem clean_data_order (raw_data : value) (events : list value) :
  clean_data raw_data = Ok events ->
  events = flat_map kept (payload_posts raw_data) /\
  (List.length events <= List.length (payload_posts raw_data))%nat.
Proof.
  intros C. destruct (payload_posts raw_data) as [|p l] eqn:P.
  - destruct (clean_data_posts _ _ C) as [->|C'].
    + split; [reflexivity | simpl; lia].
    + rewrite P in C'. injection C' as <-. split; [reflexivity | simpl; lia].
  - rewrite clean_data_payload in C by (rewrite P; discriminate).
    rewrite P in C. apply clean_posts_flat, C.
Qed.

End NormalizerMore.

Lemma normalized_text_trimmed_witness :
  clean_post wide_post = Ok (Some wide_event) /\
  exists t summary description a b,
    post_title wide_post = PStr t /\
    str_replace COMING_SOON "" t = (a ++ summary ++ b)%string /\
    starts_with_space summary = false /\ ends_with_space summary = false /\
    starts_with_space description = false /\
    ends_with_space description = false.
Proof.
  split; [reflexivity|].
  destruct (@normalized_text_trimmed json_fixture wide_post wide_event eq_refl)
    as (t & summary & description & a & b & T & _ & _ & E & _ & _ & S1 & S2 & D1 & D2).
  exists t, summary, description, a, b. repeat split; assumption.
Defined.

Lemma summary_of_title_witness :
  clean_post wide_post = Ok (Some wide_event) /\
  py_getitem wide_event "summary"
  = Ok (PStr (str_strip (NBSP ++ " Demo" ++ IDEOGRAPHIC_SPACE ++ NBSP))) /\
  clean_post untitled_post = Ok (Some untitled_event) /\
  py_getitem untitled_event "summary" = Ok (PStr "No Title") /\
  clean_post padded_post = Ok (Some padded_event) /\
  py_getitem padded_event "summary" = Ok (PStr (str_strip "  Big Sale  ")) /\
  clean_post demo_post = Ok (Some demo_event) /\
  py_getitem demo_event "summary" = Ok (PStr (str_strip "Demo")).
Proof.
  split; [reflexivity|]. split; [|split; [reflexivity|]].
  { exact (proj1 (proj2 (summary_of_title wide_post wide_event eq_refl))
             (NBSP ++ " Demo" ++ IDEOGRAPHIC_SPACE ++ NBSP)%string
             eq_refl eq_refl). }
  split; [|split; [reflexivity|split; [|split; [reflexivity|]]]].
  - exact (proj1 (summary_of_title untitled_post untitled_event eq_refl)
             _ eq_refl eq_refl).
  - exact (proj1 (proj2 (summary_of_title padded_post padded_event eq_refl))
             "  Big Sale  "%string eq_refl eq_refl).
  - exact (proj2 (proj2 (summary_of_title demo_post demo_event eq_refl))
             "Demo"%string eq_refl eq_refl).
Defined.

Lemma decode_field_fallback_witness :
  decode_field (PInt 7) = Ok (PInt 7) /\
  decode_field (PStr "soon") = Ok (PStr "soon") /\
  decode_field (PStr "7") = Ok (PInt 7).
Proof.
  split; [|split].
  - apply (proj1 (decode_field_fallback (PInt 7))). intros s. discriminate.
  - exact (proj1 (proj2 (decode_field_fallback (PStr "soon"))) "soon"%string
             eq_refl eq_refl).
  - exact (proj1 (proj2 (proj2 (decode_field_fallback (PStr "7")))) "7"%string
             (PInt 7) eq_refl eq_refl).
Defined.

Lemma scan_fields_last_witness :
  scan_fields [start_field "soon"; start_field "7"] (PNone, PNone)
  = Ok (PInt 7, PNone) /\
  scan_fields [start_field "soon";
               PDict [("key", PStr "start_date"); ("value", PNone)]]
    (PNone, PNone)
  = Ok (PStr "soon", PNone).
Proof.
  split.
  - exact (proj2 (scan_fields_last [start_field "soon"] (start_field "7")
                    (PStr "start_date") (PStr "7") (PNone, PNone)
                    (PStr "soon", PNone) eq_refl eq_refl eq_refl)
             (PInt 7) ltac:(discriminate) eq_refl).
  - exact (proj1 (scan_fields_last [start_field "soon"]
                    (PDict [("key", PStr "start_date"); ("value", PNone)])
                    (PStr "start_date") PNone (PNone, PNone)
                    (PStr "soon", PNone) eq_refl eq_refl eq_refl) eq_refl).
Defined.

Lemma clean_data_all_or_nothing_witness :
  clean_post demo_post = Ok (Some demo_event) /\
  clean_post null_title_post = Raise AttributeError /\
  exists e, clean_data (payload_of [demo_post; null_title_post]) = Raise e.
Proof.
  split; [reflexivity|]. split; [reflexivity|].
  exact (clean_data_all_or_nothing (payload_of [demo_post; null_title_post])
           null_title_post AttributeError (or_intror (or_introl eq_refl)) eq_refl).
Defined.

Lemma clean_data_order_witness :
  let raw := payload_of [padded_post; null_start_post; demo_post] in
  clean_data raw = Ok [padded_event; demo_event] /\
  [padded_event; demo_event] = flat_map kept (payload_posts raw).
Proof.
  split; [reflexivity|].
  exact (proj1 (clean_data_order
                  (payload_of [padded_post; null_start_post; demo_post])
                  [padded_event; demo_event] eq_refl)).
Defined.

(** ** More on the dictionary *)

(** The dict comprehension, seen through [keyed] and [store_sets]. *)
Lemma index_events_keyed (events : list value) :
  forall d,
    index_events events d = (kvs <- keyed events ;; Ok (store_sets kvs d)).
Proof.
  induction events as [|event rest IH]; intros d; simpl; [reflexivity|].
  destruct event as [| | | | | |items]; simpl; try reflexivity.
  destruct (assoc "id" items) as [id|]; simpl; [|apply IH].
  destruct (truthy id); simpl; [|apply IH].
  destruct (py_hash id) as [key|]; simpl; [|reflexivity].
  rewrite IH. destruct (keyed rest); reflexivity.
Qed.

(** The dictionary of the merge loop, whatever the counters. *)
Lemma merge_events_store (events : list value) :
  forall d n u,
    (st <- merge_events events (d, n, u) ;; Ok (fst (fst st)))
    = (kvs <- keyed events ;; Ok (store_sets kvs d)).
Proof.
  induction events as [|event rest IH]; intros d n u; simpl; [reflexivity|].
  destruct (py_get event "id" PNone) as [id|]; simpl; [|reflexivity].
  destruct (truthy id); simpl; [|apply IH].
  destruct (py_hash id) as [key|]; simpl; [|reflexivity].
  destruct (store_mem key d); rewrite IH; destruct (keyed rest); reflexivity.
Qed.

Lemma index_events_app (events events' : list value) :
  forall d,
    index_events (events ++ events') d
    = (d1 <- index_events events d ;; index_events events' d1).
Proof.
  induction events as [|event rest IH]; intros d; simpl; [reflexivity|].
  destruct (py_get event "id" PNone) as [id|]; simpl; [|reflexivity].
  destruct (truthy id); [|apply IH].
  destruct (py_getitem event "id") as [key|]; simpl; [|reflexivity].
  destruct (py_hash key); simpl; [apply IH | reflexivity].
Qed.

(** X7.  Loading and merging file events the same way: the dictionary
    built from the persisted list followed by the incoming list is the one
    obtained by building it from the persisted list and merging the incoming
    list into it, exceptions included. *)
Theorem load_then_merge (existing incoming : list value) :
  index_events (existing ++ incoming) []
  = (d0 <- index_events existing [] ;;
     st <- merge_events incoming (d0, 0%nat, 0%nat) ;;
     Ok (fst (fst st))).
Proof.
  rewrite index_events_app.
  destruct (index_events existing []) as [d0|]; simpl; [|reflexivity].
  rewrite merge_events_store. apply index_events_keyed.
Qed.

Lemma keyed_keyed_by (events : list value) :
  forall kvs, keyed events = Ok kvs ->
    forallb (fun kv => keyed_by (fst kv) (snd kv)) kvs = true.
Proof.
  induction events as [|event rest IH]; simpl; intros kvs K.
  - injection K as <-. reflexivity.
  - destruct (py_get event "id" PNone) as [id|] eqn:G; simpl in K;
      [|discriminate].
    destruct (truthy id) eqn:T; simpl in K; [|apply IH, K].
    destruct (py_hash id) as [key|] eqn:H; simpl in K; [|discriminate].
    destruct (keyed rest) as [kvs'|]; simpl in K; [|discriminate].
    injection K as <-. simpl. rewrite (IH _ eq_refl), andb_true_r.
    unfold keyed_by. rewrite G, T, H. apply hkey_eqb_refl.
Qed.

Lemma store_set_keyed_by (k : hkey) (v : value) (d : store) :
  keyed_by k v = true ->
  forallb (fun kv => keyed_by (fst kv) (snd kv)) d = true ->
  forallb (fun kv => keyed_by (fst kv) (snd kv)) (store_set k v d) = true.
Proof.
  intros Kv. induction d as [|[k' v'] d IH]; simpl; intros A.
  - rewrite Kv. reflexivity.
  - apply andb_true_iff in A as [A1 A2].
    destruct (hkey_eqb k k') eqn:E; simpl.
    + apply hkey_eqb_eq in E. subst k'. rewrite Kv, A2. reflexivity.
    + rewrite A1, IH by exact A2. reflexivity.
Qed.

Lemma store_sets_well_keyed (kvs : list (hkey * value)) :
  forall d,
    forallb (fun kv => keyed_by (fst kv) (snd kv)) kvs = true ->
    well_keyed d -> well_keyed (store_sets kvs d).
Proof.
  induction kvs as [|[k v] kvs IH]; simpl; intros d A W; [exact W|].
  apply andb_true_iff in A as [A1 A2]. destruct W as [W1 W2].
  apply IH; [exact A2|].
  split; [apply store_set_keyed_by; assumption | apply store_set_nodup, W2].
Qed.

Lemma well_keyed_nil : well_keyed [].
Proof. split; [reflexivity | constructor]. Qed.

Lemma index_events_well_keyed (events : list value) (d : store) :
  index_events events [] = Ok d -> well_keyed d.
Proof.
  intros I. rewrite index_events_keyed in I.
  destruct (keyed events) as [kvs|] eqn:K; simpl in I; [|discriminate].
  injection I as <-.
  apply store_sets_well_keyed; [exact (keyed_keyed_by _ _ K) | apply well_keyed_nil].
Qed.

Lemma merge_events_well_keyed (events : list value) (d d' : store)
    (n u n' u' : nat) :
  well_keyed d ->
  merge_events events (d, n, u) = Ok (d', n', u') -> well_keyed d'.
Proof.
  intros W M.
  destruct (merge_events_keyed _ _ _ _ _ _ _ M) as (kvs & K & -> & _).
  apply store_sets_well_keyed; [exact (keyed_keyed_by _ _ K) | exact W].
Qed.

(** X8.  The dictionary keeps its shape: built from a list, or merged
    into, it files every event under the hash of its own non-empty id and
    has one item per id. *)
Theorem store_well_keyed (events : list value) :
  (forall d, index_events events [] = Ok d -> well_keyed d) /\
  (forall d n u d' n' u',
     well_keyed d ->
     merge_events events (d, n, u) = Ok (d', n', u') -> well_keyed d').
Proof.
  split.
  - apply index_events_well_keyed.
  - intros d n u d' n' u'. apply merge_events_well_keyed.
Qed.

Lemma store_well_keyed_witness :
  index_events [stale_event; PDict []; demo_event; stale_event] []
  = Ok [(HStr "a", stale_event); (HStr "x1", demo_event)] /\
  well_keyed [(HStr "a", stale_event); (HStr "x1", demo_event)].
Proof.
  split; [reflexivity|].
  exact (proj1 (store_well_keyed [stale_event; PDict []; demo_event; stale_event])
           _ eq_refl).
Defined.

Lemma keyed_store_values (d : store) :
  forallb (fun kv => keyed_by (fst kv) (snd kv)) d = true ->
  keyed (store_values d) = Ok d.
Proof.
  induction d as [|[k e] d IH]; simpl; intros A; [reflexivity|].
  apply andb_true_iff in A as [A1 A2]. unfold keyed_by in A1.
  destruct (py_get e "id" PNone) as [id|]; simpl in *; [|discriminate].
  apply andb_true_iff in A1 as [T H]. rewrite T. simpl.
  destruct (py_hash id) as [k'|]; simpl; [|discriminate].
  apply hkey_eqb_eq in H. subst k'.
  fold (store_values d). rewrite IH by exact A2. reflexivity.
Qed.

Lemma store_sets_fresh (d : store) :
  forall acc : store,
    NoDup (store_keys (acc ++ d)%list) -> store_sets d acc = (acc ++ d)%list.
Proof.
  induction d as [|[k v] d IH]; simpl; intros acc ND.
  - rewrite app_nil_r. reflexivity.
  - assert (M : store_mem k acc = false).
    { destruct (store_mem k acc) eqn:M; [|reflexivity].
      apply store_mem_keys in M. unfold store_keys in ND.
      rewrite map_app in ND. simpl in ND.
      apply NoDup_remove_2 in ND. elim ND. apply in_or_app. auto. }
    rewrite store_set_absent by exact M.
    rewrite IH; rewrite <- app_assoc; [reflexivity | exact ND].
Qed.

Lemma index_store_values (d : store) :
  well_keyed d -> index_events (store_values d) [] = Ok d.
Proof.
  intros [W1 W2]. rewrite index_events_keyed, keyed_store_values by exact W1.
  simpl. rewrite store_sets_fresh; [reflexivity | exact W2].
Qed.

(** X9.  Saving and loading again gives the dictionary back: the list of
    its values, turned into a dictionary, is the dictionary itself, items and
    order. *)
Theorem store_values_round_trip (d : store) :
  well_keyed d -> index_events (store_values d) [] = Ok d.
Proof. apply index_store_values. Qed.

Lemma store_values_round_trip_witness :
  let d := [(HStr "a", stale_event); (HStr "x1", demo_event)] in
  well_keyed d /\ index_events (store_values d) [] = Ok d.
Proof.
  assert (W : well_keyed [(HStr "a", stale_event); (HStr "x1", demo_event)]).
  { split; [reflexivity|].
    repeat constructor; simpl; intuition discriminate. }
  split; [exact W|].
  exact (store_values_round_trip _ W).
Defined.

(** X10.  What a merge leaves under an id: the event that was there when
    no incoming event has that id; the last incoming event with that id
    otherwise. *)
Theorem merge_lookup (events : list value) (kvs : list (hkey * value))
    (d d' : store) (n u n' u' : nat) :
  keyed events = Ok kvs ->
  merge_events events (d, n, u) = Ok (d', n', u') ->
  (forall k, ~ In k (map fst kvs) -> store_get k d' = store_get k d) /\
  (forall kvs1 k v kvs2,
     kvs = (kvs1 ++ (k, v) :: kvs2)%list -> ~ In k (map fst kvs2) ->
     store_get k d' = Some v).
Proof.
  intros K M.
  destruct (merge_events_keyed _ _ _ _ _ _ _ M) as (kvs' & K' & -> & _).
  assert (kvs' = kvs) as -> by congruence.
  split.
  - intros k N. apply store_sets_get_other, N.
  - intros kvs1 k v kvs2 -> N. rewrite store_sets_app. simpl.
    rewrite store_sets_get_other by exact N. apply store_get_set_same.
Qed.

Lemma merge_lookup_witness :
  let newer := PDict [("id", PStr "x1"); ("summary", PStr "newer")] in
  let d := [(HStr "a", stale_event)] in
  exists d',
    merge_events [demo_event; newer] (d, 0%nat, 0%nat) = Ok (d', 1%nat, 1%nat) /\
    store_get (HStr "a") d' = Some stale_event /\
    store_get (HStr "x1") d' = Some newer.
Proof.
  pose (newer := PDict [("id", PStr "x1"); ("summary", PStr "newer")]).
  pose proof (merge_lookup [demo_event; newer]
                [(HStr "x1", demo_event); (HStr "x1", newer)]
                [(HStr "a", stale_event)] _ 0 0 1 1 eq_refl eq_refl) as [L1 L2].
  eexists. split; [reflexivity|]. split.
  - apply L1. simpl. intuition discriminate.
  - apply (L2 [(HStr "x1", demo_event)] (HStr "x1") newer []); [reflexivity|].
    simpl. tauto.
Defined.

Lemma store_sets_keys (kvs : list (hkey * value)) :
  forall d, exists suffix,
    store_keys (store_sets kvs d) = (store_keys d ++ suffix)%list /\
    forall k, In k suffix -> store_mem k d = false /\ In k (map fst kvs).
Proof.
  induction kvs as [|[k v] kvs IH]; simpl; intros d.
  - exists []. rewrite app_nil_r. split; [reflexivity | contradiction].
  - destruct (IH (store_set k v d)) as (suffix & E & S).
    assert (F : forall k', In k' suffix ->
                  store_mem k' d = false /\ (k = k' \/ In k' (map fst kvs))).
    { intros k' I. destruct (S k' I) as [M I']. split; [|auto].
      destruct (store_mem k' d) eqn:M'; [|reflexivity].
      rewrite (store_mem_set k k' v d M') in M. discriminate. }
    rewrite store_set_keys in E. destruct (store_mem k d) eqn:M.
    + exists suffix. auto.
    + exists (k :: suffix). rewrite <- app_assoc in E. split; [exact E|].
      intros k' [<-|I]; [auto | apply F, I].
Qed.

(** X11.  A merge keeps the events of the dictionary in their places and
    puts the new ids after them. *)
Theorem merge_order (events : list value) (d d' : store) (n u n' u' : nat) :
  merge_events events (d, n, u) = Ok (d', n', u') ->
  exists suffix,
    store_keys d' = (store_keys d ++ suffix)%list /\
    List.length suffix = (n' - n)%nat /\
    forall k, In k suffix -> store_mem k d = false.
Proof.
  intros M.
  destruct (merge_events_keyed _ _ _ _ _ _ _ M) as (kvs & K & -> & _ & _ & _ & L).
  destruct (store_sets_keys kvs d) as (suffix & E & S).
  exists suffix. split; [exact E|]. split.
  - apply (f_equal (@List.length hkey)) in E.
    unfold store_keys in E. rewrite length_app, !length_map in E. lia.
  - intros k I. apply S, I.
Qed.

Lemma merge_order_witness :
  merge_events [demo_event; stale_event] ([(HStr "a", stale_event)], 0%nat, 0%nat)
  = Ok ([(HStr "a", stale_event); (HStr "x1", demo_event)], 1%nat, 1%nat) /\
  exists suffix,
    [HStr "a"; HStr "x1"] = ([HStr "a"] ++ suffix)%list /\
    List.length suffix = 1%nat.
Proof.
  split; [reflexivity|].
  destruct (merge_order [demo_event; stale_event] [(HStr "a", stale_event)]
              _ 0 0 1 1 eq_refl) as (suffix & E & L & _).
  exists suffix. split; [exact E | exact L].
Defined.

(** ** More on the renderer *)

Section RendererMore.

Context {ics : IcsLib}.



(** The calendar only grows, by at most one entry for each event. *)
Lemma add_events_grows (events : list value) :
  forall cal cal',
    add_events events cal = Ok cal' ->
    exists added,
      cal' = (cal ++ added)%list /\
      (List.length added <= List.length events)%nat.
Proof.
  induction events as [|event_data rest IH]; simpl; intros cal cal' A.
  - injection A as <-. exists []. rewrite app_nil_r. split; [reflexivity | simpl; lia].
  - destruct (event <- build_event event_data ;; events_add event cal)
      as [cal1|] eqn:B.
    + unfold events_add in B.
      destruct (build_event event_data) as [event|]; simpl in B; [|discriminate].
      destruct (event_hash event); simpl in B; [|discriminate].
      injection B as <-. destruct (IH _ _ A) as (added & -> & L).
      destruct (existsb (event_eqb event) cal).
      * exists added. split; [reflexivity | lia].
      * exists (event :: added). rewrite <- app_assoc.
        split; [reflexivity | simpl; lia].
    + destruct (py_get event_data "summary" PNone); simpl in A; [|discriminate].
      destruct (IH _ _ A) as (added & -> & L). exists added. split; [reflexivity | lia].
Qed.

Lemma add_events_dicts (events : list value) :
  forall cal, forallb is_dict events = true ->
    exists cal', add_events events cal = Ok cal'.
Proof.
  induction events as [|event_data rest IH]; simpl; intros cal A; [eauto|].
  apply andb_true_iff in A as [A1 A2].
  destruct (event <- build_event event_data ;; events_add event cal);
    [apply IH, A2|].
  destruct event_data; try discriminate. simpl. apply IH, A2.
Qed.

Lemma add_events_rendered (events : list value) (event_data : value) :
  In event_data events -> renders event_data = true ->
  forall cal cal', add_events events cal = Ok cal' -> cal' <> [].
Proof.
  intros I R. induction events as [|e rest IH]; [contradiction|].
  simpl. intros cal cal' A.
  destruct I as [->|I].
  - unfold renders in R. unfold events_add in A.
    destruct (build_event event_data) as [event|]; simpl in *; [|discriminate].
    destruct (event_hash event); simpl in *; [|discriminate].
    destruct (add_events_grows _ _ _ A) as (added & -> & _).
    destruct (existsb (event_eqb event) cal) eqn:X.
    + destruct cal; [discriminate|]. discriminate.
    + destruct cal; discriminate.
  - destruct (event <- build_event e ;; events_add event cal).
    + exact (IH I _ _ A).
    + destruct (py_get e "summary" PNone); simpl in A; [|discriminate].
      exact (IH I _ _ A).
Qed.



(** X14.  The entries of the calendar are never taken back, and there is
    at most one new entry for each event. *)
Theorem calendar_grows (events : list value) (cal cal' : list vevent) :
  add_events events cal = Ok cal' ->
  exists added,
    cal' = (cal ++ added)%list /\
    (List.length added <= List.length events)%nat.
Proof. apply add_events_grows. Qed.


Lemma create_ics_file_frame (events : list value) (filename : string)
    (fs : filesystem) (name : string) :
  name <> filename ->
  snd (create_ics_file events filename fs) name = fs name.
Proof.
  intros N. unfold create_ics_file, io_bind, io_lift, io_ret, write_text.
  destruct (add_events events []) as [[|entry cal]|]; simpl; try reflexivity.
  destruct (can_write (fs filename)); simpl; [|reflexivity].
  unfold fs_write. apply String.eqb_neq in N. rewrite N. reflexivity.
Qed.


End RendererMore.



Lemma calendar_grows_witness :
  add_events [demo_event; stale_event; demo_event] [] = Ok [demo_entry] /\
  exists added,
    [demo_entry] = ([] ++ added)%list /\ (List.length added <= 3)%nat.
Proof.
  split; [reflexivity|].
  exact (@calendar_grows ics_fixture [demo_event; stale_event; demo_event] []
           [demo_entry] eq_refl).
Defined.


(** ** More on the reconciler *)

Section ReconcilerMore.

Context {json : JsonLib} {ics : IcsLib}.

Lemma files_differ : ICS_FILE <> CLEANED_DATA_FILE.
Proof. unfold ICS_FILE, CLEANED_DATA_FILE. discriminate. Qed.

Lemma load_store_pair (fs : filesystem) :
  load_store fs = (fst (load_store fs), fs).
Proof.
  rewrite <- (load_store_frame fs) at 3. destruct (load_store fs). reflexivity.
Qed.

(** The store of a file that holds a document. *)
Lemma load_store_content (fs : filesystem) (text : string) (v : value) :
  fs CLEANED_DATA_FILE = Content text -> text <> ""%string ->
  json_loads text = Ok v ->
  fst (load_store fs)
  = (existing_events <- py_iter v ;; index_events existing_events []).
Proof.
  intros F N L. unfold load_store, io_bind, io_lift, load_from_file,
    path_exists, read_text. rewrite F. simpl.
  apply String.eqb_neq in N. rewrite N, L. simpl. reflexivity.
Qed.

(** A run that has something to merge, up to the rendering. *)
Lemma main_merged (raw_response_data : value) (fs : filesystem)
    (d0 : store) :
  fst (load_store fs) = Ok d0 ->
  truthy raw_response_data = true ->
  main raw_response_data fs
  = match merge_step d0 raw_response_data with
    | Raise e => (Raise e, fs)
    | Ok d =>
        if can_write (fs CLEANED_DATA_FILE)
        then
          let fs1 :=
            fs_write CLEANED_DATA_FILE (json_dumps (PList (store_values d))) fs in
          match json_dump_error (PList (store_values d)) with
          | Some e => (Raise e, fs1)
          | None => create_ics_file (store_values d) ICS_FILE fs1
          end
        else (Raise IOError, fs)
    end.
Proof.
  intros L T. destruct (merge_step d0 raw_response_data) as [d|e] eqn:M.
  - exact (main_saves_store _ _ _ _ L T M).
  - unfold main, io_bind at 1. rewrite (load_store_pair fs), L, T.
    simpl. unfold io_bind, io_lift. rewrite M. reflexivity.
Qed.

Lemma fs_write_other (name text : string) (fs : filesystem) (n : string) :
  n <> name -> fs_write name text fs n = fs n.
Proof.
  intros N. unfold fs_write. apply String.eqb_neq in N. rewrite N. reflexivity.
Qed.

Lemma fs_write_same (name text : string) (fs : filesystem) :
  rewritable (fs name) = true -> fs_write name text fs name = Content text.
Proof.
  unfold fs_write. rewrite String.eqb_refl.
  destruct (fs name) as [| |held [] []]; simpl; try discriminate; reflexivity.
Qed.

Lemma has_id_is_dict (e : value) : has_id e = true -> is_dict e = true.
Proof. unfold has_id. destruct e; simpl; congruence. Qed.

Lemma merged_values_dicts (fs : filesystem) (raw_response_data : value)
    (d0 d : store) :
  fst (load_store fs) = Ok d0 ->
  merge_step d0 raw_response_data = Ok d ->
  forallb is_dict (store_values d) = true.
Proof.
  intros L M. apply forallb_forall. intros e I. apply has_id_is_dict.
  destruct (merge_step_values _ _ _ M e I) as [I0|[H _]]; [|exact H].
  exact (load_store_has_id _ _ L e I0).
Qed.

Lemma load_store_well_keyed (fs : filesystem) (d0 : store) :
  fst (load_store fs) = Ok d0 -> well_keyed d0.
Proof.
  unfold load_store, io_bind, io_lift. intros L.
  destruct (load_from_file CLEANED_DATA_FILE fs) as [[existing|] fs'];
    simpl in L; [|discriminate].
  destruct (py_iter existing) as [events|]; simpl in L; [|discriminate].
  exact (index_events_well_keyed _ _ L).
Qed.

Lemma merge_step_well_keyed (d0 d : store) (raw_response_data : value) :
  well_keyed d0 -> merge_step d0 raw_response_data = Ok d -> well_keyed d.
Proof.
  unfold merge_step. intros W M.
  destruct (clean_data raw_response_data) as [newly|]; simpl in M;
    [|discriminate].
  destruct (merge_events newly (d0, 0%nat, 0%nat)) as [[[d' n] u]|] eqn:ME.
  - assert (d = d') as ->.
    { destruct newly; simpl in *; [|congruence].
      injection ME as <- _ _. congruence. }
    exact (merge_events_well_keyed _ _ _ _ _ _ _ W ME).
  - destruct newly; simpl in M; [|discriminate].
    injection M as <-. exact W.
Qed.

Lemma main_load_failure (raw_response_data : value) (fs : filesystem)
    (e : exn) :
  fst (load_store fs) = Raise e -> main raw_response_data fs = (Raise e, fs).
Proof.
  intros L. unfold main, io_bind at 1. rewrite (load_store_pair fs), L.
  reflexivity.
Qed.

(** The dict comprehension goes through events that can be merged. *)
Lemma index_events_total (events : list value) :
  forall d, forallb mergeable events = true ->
    exists d', index_events events d = Ok d'.
Proof.
  induction events as [|event rest IH]; simpl; intros d A; [eauto|].
  apply andb_true_iff in A as [A1 A2]. unfold mergeable in A1.
  destruct event as [| | | | | |items]; simpl in *; try discriminate.
  destruct (assoc "id" items) as [id|]; simpl in *; [|apply IH, A2].
  destruct (truthy id); simpl in *; [|apply IH, A2].
  destruct (py_hash id) as [key|]; simpl in *; [apply IH, A2 | discriminate].
Qed.

(** X16.  A run touches no file but the store file and the calendar
    file. *)
Theorem main_frame (raw_response_data : value) (fs : filesystem)
    (name : string) :
  name <> CLEANED_DATA_FILE -> name <> ICS_FILE ->
  snd (main raw_response_data fs) name = fs name.
Proof.
  intros N1 N2.
  destruct (fst (load_store fs)) as [d0|e] eqn:L;
    [|rewrite (main_load_failure _ _ _ L); reflexivity].
  destruct (truthy raw_response_data) eqn:T.
  - rewrite (main_merged _ _ _ L T).
    destruct (merge_step d0 raw_response_data) as [d|]; [|reflexivity].
    destruct (can_write (fs CLEANED_DATA_FILE)); [|reflexivity].
    cbv zeta. destruct (json_dump_error (PList (store_values d))).
    + simpl. apply fs_write_other, N1.
    + rewrite create_ics_file_frame by exact N2. apply fs_write_other, N1.
  - unfold main, io_bind at 1. rewrite (load_store_pair fs), L, T. reflexivity.
Qed.

(** X17.  When the normalizer or the merge raises, the run ends with that
    exception and has written nothing. *)
Theorem main_normalizer_failure (raw_response_data : value)
    (fs : filesystem) (d0 : store) (e : exn) :
  fst (load_store fs) = Ok d0 ->
  truthy raw_response_data = true ->
  merge_step d0 raw_response_data = Raise e ->
  main raw_response_data fs = (Raise e, fs).
Proof.
  intros L T M. rewrite (main_merged _ _ _ L T), M. reflexivity.
Qed.

(** X18.  A store file that cannot be opened is read as an empty store,
    and then the save fails: the run ends with [IOError] before the calendar
    is rendered, and has written nothing. *)
Theorem main_save_failure (raw_response_data : value) (fs : filesystem)
    (d : store) :
  fs CLEANED_DATA_FILE = Unopenable ->
  truthy raw_response_data = true ->
  merge_step [] raw_response_data = Ok d ->
  fst (load_store fs) = Ok [] /\
  main raw_response_data fs = (Raise IOError, fs).
Proof.
  intros U T M.
  assert (L : fst (load_store fs) = Ok []).
  { unfold load_store, io_bind, io_lift, load_from_file, path_exists, read_text.
    rewrite U. reflexivity. }
  split; [exact L|]. rewrite (main_merged _ _ _ L T), M, U. reflexivity.
Qed.

(** X19.  A store file that holds a valid document of the wrong shape is
    not recovered from.  A number, a boolean or [null] makes the run raise
    [TypeError]; in a list, the first element that cannot be filed decides:
    [AttributeError] when it is not a dict, [TypeError] when its id is a
    list or a dict; a non-empty dict or string makes it raise
    [AttributeError].  This happens before the fetch is looked at, and
    nothing is written. *)
Theorem main_bad_store (raw_response_data : value) (fs : filesystem)
    (text : string) (v : value) :
  fs CLEANED_DATA_FILE = Content text -> text <> ""%string ->
  json_loads text = Ok v ->
  (match v with
   | PNone | PBool _ | PInt _ | PFloat _ _ => True
   | _ => False
   end -> main raw_response_data fs = (Raise TypeError, fs)) /\
  (forall good x l, v = PList (good ++ x :: l) ->
     forallb mergeable good = true -> is_dict x = false ->
     main raw_response_data fs = (Raise AttributeError, fs)) /\
  (forall good x id l, v = PList (good ++ x :: l) ->
     forallb mergeable good = true ->
     py_get x "id" PNone = Ok id -> truthy id = true ->
     py_hash id = Raise TypeError ->
     main raw_response_data fs = (Raise TypeError, fs)) /\
  (forall item items, v = PDict (item :: items) ->
     main raw_response_data fs = (Raise AttributeError, fs)) /\
  (forall c rest, v = PStr (String c rest) ->
     main raw_response_data fs = (Raise AttributeError, fs)).
Proof.
  intros F N L. pose proof (load_store_content _ _ _ F N L) as S.
  split; [|split; [|split; [|split]]].
  - intros V. apply main_load_failure. rewrite S.
    destruct v; try destruct V; reflexivity.
  - intros good x l -> G D. apply main_load_failure. rewrite S.
    cbn [py_iter rbind]. rewrite index_events_app.
    destruct (index_events_total good [] G) as [d1 ->]. cbn [rbind].
    destruct x; try reflexivity. discriminate D.
  - intros good x id l -> G I T H. apply main_load_failure. rewrite S.
    cbn [py_iter rbind]. rewrite index_events_app.
    destruct (index_events_total good [] G) as [d1 ->]. cbn [rbind].
    destruct x as [| | | | | |items]; try discriminate I.
    cbn [index_events]. rewrite I. cbn [rbind]. rewrite T.
    simpl in I. injection I as I. simpl py_getitem.
    destruct (assoc "id" items) as [id'|].
    + subst id'. cbn [rbind]. rewrite H. reflexivity.
    + subst id. discriminate T.
  - intros [k x] items ->. apply main_load_failure. rewrite S. reflexivity.
  - intros c rest ->. apply main_load_failure. rewrite S. reflexivity.
Qed.


(** X21.  A run and the next: when the store file can be written and read
    back, and the [json] library reads back what it wrote for the saved
    list, the store the next run loads is the merged dictionary of this run,
    items and order. *)
Theorem run_round_trip (raw_response_data : value) (fs : filesystem)
    (d0 d : store) :
  fst (load_store fs) = Ok d0 ->
  truthy raw_response_data = true ->
  merge_step d0 raw_response_data = Ok d ->
  rewritable (fs CLEANED_DATA_FILE) = true ->
  json_dumps (PList (store_values d)) <> ""%string ->
  json_loads (json_dumps (PList (store_values d))) = Ok (PList (store_values d)) ->
  fst (load_store (snd (main raw_response_data fs))) = Ok d.
Proof.
  intros L T M U N RT.
  rewrite (load_store_content _ (json_dumps (PList (store_values d)))
             (PList (store_values d)));
    [ | | exact N | exact RT ].
  - simpl. apply index_store_values.
    exact (merge_step_well_keyed _ _ _ (load_store_well_keyed _ _ L) M).
  - rewrite (main_merged _ _ _ L T), M.
    assert (W : can_write (fs CLEANED_DATA_FILE) = true).
    { destruct (fs CLEANED_DATA_FILE) as [| |held [] []]; simpl in *;
        congruence. }
    rewrite W. cbv zeta.
    destruct (json_dump_error (PList (store_values d))); simpl.
    + apply fs_write_same, U.
    + rewrite create_ics_file_frame
        by (intros E; exact (files_differ (eq_sym E))).
      apply fs_write_same, U.
Qed.

(** X22.  A response from which no event is cleaned still has the run
    open the store file and save the loaded events, and render them when
    [json.dump] has not raised. *)
Theorem main_empty_normalization (raw_response_data : value)
    (fs : filesystem) (d0 : store) :
  fst (load_store fs) = Ok d0 ->
  truthy raw_response_data = true ->
  clean_data raw_response_data = Ok [] ->
  can_write (fs CLEANED_DATA_FILE) = true ->
  main raw_response_data fs
  = let fs1 :=
      fs_write CLEANED_DATA_FILE (json_dumps (PList (store_values d0))) fs in
    match json_dump_error (PList (store_values d0)) with
    | Some e => (Raise e, fs1)
    | None => create_ics_file (store_values d0) ICS_FILE fs1
    end.
Proof.
  intros L T C W. rewrite (main_saves_store _ _ d0 d0 L T), W; [reflexivity|].
  unfold merge_step. rewrite C. reflexivity.
Qed.

(** X23.  A store file with a non-empty text: [load_from_file] returns the
    document [json.loads] decodes, whatever its shape, and lets through every
    exception of [json.loads] other than the two it catches. *)
Theorem load_from_file_valid (fs : filesystem) (filename text : string) :
  fs filename = Content text -> text <> ""%string ->
  (forall v, json_loads text = Ok v ->
     load_from_file filename fs = (Ok v, fs)) /\
  (forall e, json_loads text = Raise e ->
     e <> JSONDecodeError -> e <> IOError ->
     load_from_file filename fs = (Raise e, fs)).
Proof.
  intros F N. unfold load_from_file, path_exists, read_text. rewrite F. simpl.
  apply String.eqb_neq in N. rewrite N. split.
  - intros v ->. reflexivity.
  - intros e -> N1 N2. destruct e; try reflexivity; contradiction.
Qed.

End ReconcilerMore.

Lemma main_frame_witness :
  snd (main demo_payload with_notes) "notes.txt" = Content "mine".
Proof.
  exact (main_frame demo_payload with_notes "notes.txt"
           ltac:(unfold CLEANED_DATA_FILE; discriminate)
           ltac:(unfold ICS_FILE; discriminate)).
Defined.

Lemma main_normalizer_failure_witness :
  main null_title_payload (with_store stale_text)
  = (Raise AttributeError, with_store stale_text).
Proof.
  exact (@main_normalizer_failure json_fixture ics_fixture null_title_payload
           (with_store stale_text) [(HStr "a", stale_event)] AttributeError
           eq_refl eq_refl eq_refl).
Defined.

Lemma main_save_failure_witness :
  main demo_payload locked_store = (Raise IOError, locked_store).
Proof.
  exact (proj2 (@main_save_failure json_fixture ics_fixture demo_payload
                  locked_store [(HStr "x1", demo_event)]
                  eq_refl eq_refl eq_refl)).
Defined.

Lemma main_bad_store_witness :
  main PNone (with_store "7") = (Raise TypeError, with_store "7") /\
  @main mixed_json ics_fixture PNone (with_store "mixed")
  = (Raise AttributeError, with_store "mixed") /\
  @main mixed_json ics_fixture PNone (with_store "listed")
  = (Raise TypeError, with_store "listed").
Proof.
  split; [|split].
  - exact (proj1 (@main_bad_store json_fixture ics_fixture PNone
                    (with_store "7") "7" (PInt 7) eq_refl
                    ltac:(discriminate) eq_refl) I).
  - exact (proj1 (proj2 (@main_bad_store mixed_json ics_fixture PNone
                           (with_store "mixed") "mixed"
                           (PList [demo_event; PInt 5; listed_id_event])
                           eq_refl ltac:(discriminate) eq_refl))
             [demo_event] (PInt 5) [listed_id_event] eq_refl eq_refl eq_refl).
  - exact (proj1 (proj2 (proj2 (@main_bad_store mixed_json ics_fixture PNone
                                  (with_store "listed") "listed"
                                  (PList [listed_id_event; PInt 5])
                                  eq_refl ltac:(discriminate) eq_refl)))
             [] listed_id_event (PList [PInt 1]) [PInt 5]
             eq_refl eq_refl eq_refl eq_refl eq_refl).
Defined.


Lemma run_round_trip_witness :
  fst (@load_store readback_json
         (snd (@main readback_json ics_fixture demo_payload
                 (with_store stale_text))))
  = Ok [(HStr "a", stale_event); (HStr "x1", demo_event)].
Proof.
  exact (@run_round_trip readback_json ics_fixture demo_payload
           (with_store stale_text) [(HStr "a", stale_event)]
           [(HStr "a", stale_event); (HStr "x1", demo_event)]
           eq_refl eq_refl eq_refl
           eq_refl ltac:(vm_compute; discriminate) eq_refl).
Defined.

Lemma main_empty_normalization_witness :
  main (payload_of []) (with_store stale_text)
  = create_ics_file [stale_event] ICS_FILE
      (fs_write CLEANED_DATA_FILE (json_dumps (PList [stale_event]))
         (with_store stale_text)) /\
  @main surrogate_json ics_fixture (payload_of []) (with_store "lone")
  = (Raise UnicodeEncodeError,
     fs_write CLEANED_DATA_FILE "[" (with_store "lone")).
Proof.
  split.
  - exact (@main_empty_normalization json_fixture ics_fixture (payload_of [])
             (with_store stale_text) [(HStr "a", stale_event)]
             eq_refl eq_refl eq_refl eq_refl).
  - exact (@main_empty_normalization surrogate_json ics_fixture (payload_of [])
             (with_store "lone") [(HStr "s1", surrogate_event)]
             eq_refl eq_refl eq_refl eq_refl).
Defined.

Lemma load_from_file_valid_witness :
  load_from_file CLEANED_DATA_FILE (with_store "7")
  = (Ok (PInt 7), with_store "7").
Proof.
  exact (proj1 (@load_from_file_valid json_fixture (with_store "7")
                  CLEANED_DATA_FILE "7" eq_refl ltac:(discriminate))
           (PInt 7) eq_refl).
Defined.

(** ** The access token *)

Lemma span_unquoted_spec (s : string) :
  forall t r, span_unquoted s = (t, r) ->
    s = (t ++ r)%string /\ has_quote t = false /\
    (r = ""%string \/ exists r', r = String dq r').
Proof.
  induction s as [|c s IH]; cbn [span_unquoted]; intros t r S.
  - injection S as <- <-. auto.
  - destruct (c =? dq)%char eqn:C.
    + injection S as <- <-. apply Ascii.eqb_eq in C. subst c. eauto.
    + destruct (span_unquoted s) as [t' r'].
      injection S as <- <-. destruct (IH _ _ eq_refl) as (E & Q & R).
      cbn [has_quote append]. rewrite C, Q, <- E. auto.
Qed.

Lemma span_unquoted_run (t : string) :
  forall post, has_quote t = false ->
    span_unquoted (t ++ String dq post) = (t, String dq post).
Proof.
  induction t as [|c t IH]; intros post Q.
  - reflexivity.
  - cbn [has_quote] in Q. apply orb_false_iff in Q as [C Q].
    cbn [append span_unquoted]. rewrite C, IH by exact Q. reflexivity.
Qed.

Lemma match_token_sound (s token : string) :
  match_token s = Some token ->
  token <> ""%string /\ has_quote token = false /\
  exists post, s = (TOKEN_MARKER ++ token ++ String dq post)%string.
Proof.
  unfold match_token. intros M.
  destruct (prefix_of TOKEN_MARKER s) eqn:P; [|discriminate].
  apply prefix_of_split in P.
  destruct (span_unquoted (drop (String.length TOKEN_MARKER) s)) as [t r] eqn:S.
  destruct (span_unquoted_spec _ _ _ S) as (E & Q & R).
  destruct t as [|c t]; [discriminate|]. destruct r as [|c' r]; [discriminate|].
  injection M as <-. split; [discriminate|]. split; [exact Q|].
  destruct R as [R|[r' R]]; [discriminate|]. injection R as -> ->.
  exists r'. rewrite P at 1. rewrite E. reflexivity.
Qed.

Lemma match_token_head (token post : string) :
  token <> ""%string -> has_quote token = false ->
  match_token (TOKEN_MARKER ++ token ++ String dq post) = Some token.
Proof.
  intros N Q. unfold match_token.
  rewrite prefix_of_app, drop_app, span_unquoted_run by exact Q.
  destruct token; [contradiction | reflexivity].
Qed.

Lemma match_token_prefix (s : string) :
  prefix_of TOKEN_MARKER s = false -> match_token s = None.
Proof. unfold match_token. intros ->. reflexivity. Qed.

Lemma search_token_some (content token : string) :
  search_token content = Some token ->
  token <> ""%string /\ has_quote token = false /\
  exists pre post,
    content = (pre ++ TOKEN_MARKER ++ token ++ String dq post)%string.
Proof.
  induction content as [|c content IH]; cbn [search_token].
  - destruct (match_token "") eqn:M; [|discriminate].
    intros E. injection E as ->.
    destruct (match_token_sound _ _ M) as (N & Q & post & E).
    split; [exact N|]. split; [exact Q|]. exists ""%string, post. exact E.
  - destruct (match_token (String c content)) eqn:M.
    + intros E. injection E as ->.
      destruct (match_token_sound _ _ M) as (N & Q & post & E).
      split; [exact N|]. split; [exact Q|]. exists ""%string, post. exact E.
    + intros S. destruct (IH S) as (N & Q & pre & post & E).
      split; [exact N|]. split; [exact Q|].
      exists (String c pre), post. rewrite E. reflexivity.
Qed.

Lemma search_token_match (s token : string) :
  match_token s = Some token -> search_token s = Some token.
Proof. intros M. destruct s; cbn [search_token]; rewrite M; reflexivity. Qed.

Lemma search_token_exists (pre token post : string) :
  token <> ""%string -> has_quote token = false ->
  exists token',
    search_token (pre ++ TOKEN_MARKER ++ token ++ String dq post) = Some token'.
Proof.
  intros N Q. induction pre as [|c pre [token' IH]].
  - exists token. cbn [append].
    apply search_token_match, match_token_head; assumption.
  - cbn [append search_token]. destruct (match_token _); eauto.
Qed.

Lemma search_token_leftmost (pre token post : string) :
  token <> ""%string -> has_quote token = false -> has_quote pre = false ->
  search_token (pre ++ TOKEN_MARKER ++ token ++ String dq post) = Some token.
Proof.
  intros N Q. induction pre as [|c pre IH]; intros P.
  - cbn [append]. apply search_token_match, match_token_head; assumption.
  - cbn [has_quote] in P. apply orb_false_iff in P as [C P].
    cbn [append search_token]. rewrite match_token_prefix; [exact (IH P)|].
    unfold TOKEN_MARKER. cbn [prefix_of].
    rewrite Ascii.eqb_sym, C. reflexivity.
Qed.

Lemma search_token_absent (content : string) :
  substring_of TOKEN_MARKER content = false -> search_token content = None.
Proof.
  induction content as [|c content IH]; cbn [search_token substring_of];
    intros S; apply orb_false_iff in S as [P S];
    rewrite match_token_prefix by exact P; [reflexivity | exact (IH S)].
Qed.

(** X24.  A token that [fetch_access_token] returns comes from a page that
    was fetched; it is not empty, holds no quote, and stands in the page
    between the marker and a closing quote. *)
Theorem fetch_access_token_sound (page : result string) (token : string) :
  fetch_access_token page = Some token ->
  token <> ""%string /\ has_quote token = false /\
  exists content pre post,
    page = Ok content /\
    content = (pre ++ TOKEN_MARKER ++ token ++ String dq post)%string.
Proof.
  destruct page as [content|e]; simpl; [|discriminate]. intros S.
  destruct (search_token_some _ _ S) as (N & Q & pre & post & E).
  split; [exact N|]. split; [exact Q|]. exists content, pre, post. auto.
Qed.

(** X25.  A page that holds the marker, a non-empty run without a quote
    and a closing quote gives a token; the token is that run when no quote
    stands before the marker. *)
Theorem fetch_access_token_found (pre token post : string) :
  token <> ""%string -> has_quote token = false ->
  (exists token',
     fetch_access_token (Ok (pre ++ TOKEN_MARKER ++ token ++ String dq post))
     = Some token') /\
  (has_quote pre = false ->
   fetch_access_token (Ok (pre ++ TOKEN_MARKER ++ token ++ String dq post))
   = Some token).
Proof.
  intros N Q. split.
  - apply search_token_exists; assumption.
  - apply search_token_leftmost; assumption.
Qed.

(** X26.  No token comes from a request that failed, nor from a page
    without the marker. *)
Theorem fetch_access_token_none (page : result string) :
  (forall e, page = Raise e -> fetch_access_token page = None) /\
  (forall content, page = Ok content ->
     substring_of TOKEN_MARKER content = false ->
     fetch_access_token page = None).
Proof.
  split.
  - intros e ->. reflexivity.
  - intros content -> S. apply search_token_absent, S.
Qed.

Lemma assoc_set_same (key : string) (v : value) (d : list (string * value)) :
  assoc key (assoc_set key v d) = Some v.
Proof.
  induction d as [|[k x] d IH]; simpl.
  - rewrite String.eqb_refl. reflexivity.
  - destruct (key =? k)%string eqn:E; simpl; rewrite E; [reflexivity | exact IH].
Qed.

Lemma assoc_set_other (key k : string) (v : value) (d : list (string * value)) :
  k <> key -> assoc k (assoc_set key v d) = assoc k d.
Proof.
  intros N. induction d as [|[k0 x] d IH]; simpl.
  - apply String.eqb_neq in N. rewrite N. reflexivity.
  - destruct (key =? k0)%string eqn:E; simpl.
    + apply String.eqb_eq in E. subst k0.
      apply String.eqb_neq in N. rewrite N. reflexivity.
    + rewrite IH. reflexivity.
Qed.

(** X27.  The start-up code and the headers: with a token, a dict of
    headers gets [authorization] set to [Bearer] and the token, and keeps
    every other header; headers that are not a dict make it raise
    [TypeError]; without a token, and so after a failed request, the headers
    are left as they were. *)
Theorem inject_token_spec (HEADERS : value) :
  (forall items token, HEADERS = PDict items -> token <> ""%string ->
     exists items',
       inject_token HEADERS (Some token) = Ok (PDict items') /\
       assoc "authorization" items' = Some (PStr ("Bearer " ++ token)) /\
       forall k, k <> "authorization"%string -> assoc k items' = assoc k items) /\
  (forall token, is_dict HEADERS = false -> token <> ""%string ->
     inject_token HEADERS (Some token) = Raise TypeError) /\
  inject_token HEADERS None = Ok HEADERS /\
  (forall e, inject_token HEADERS (fetch_access_token (Raise e)) = Ok HEADERS).
Proof.
  split; [|split; [|split]].
  - intros items token -> N. destruct token as [|c t]; [contradiction|].
    eexists. split; [reflexivity|]. split.
    + apply assoc_set_same.
    + intros k K. apply assoc_set_other, K.
  - intros token D N. destruct token as [|c t]; [contradiction|].
    destruct HEADERS; try reflexivity. discriminate D.
  - reflexivity.
  - reflexivity.
Qed.

Lemma fetch_access_token_sound_witness :
  fetch_access_token (Ok token_page) = Some "abc.DEF-123"%string /\
  has_quote "abc.DEF-123" = false.
Proof.
  split; [reflexivity|].
  exact (proj1 (proj2 (fetch_access_token_sound (Ok token_page) "abc.DEF-123"
                         eq_refl))).
Defined.

Lemma fetch_access_token_found_witness :
  fetch_access_token (Ok ("<p>" ++ TOKEN_MARKER ++ "t0k" ++ String dq "</p>"))
  = Some "t0k"%string.
Proof.
  exact (proj2 (fetch_access_token_found "<p>" "t0k" "</p>"
                  ltac:(discriminate) eq_refl) eq_refl).
Defined.

Lemma fetch_access_token_none_witness :
  fetch_access_token (Raise IOError) = None /\
  fetch_access_token (Ok "<html>no token here</html>") = None.
Proof.
  split.
  - exact (proj1 (fetch_access_token_none (Raise IOError)) IOError eq_refl).
  - exact (proj2 (fetch_access_token_none (Ok "<html>no token here</html>"))
             _ eq_refl eq_refl).
Defined.

Lemma inject_token_spec_witness :
  let HEADERS := PDict [("accept", PStr "*/*"); ("authorization", PStr "Bearer old")] in
  inject_token HEADERS (Some "t0k"%string)
  = Ok (PDict [("accept", PStr "*/*"); ("authorization", PStr "Bearer t0k")]) /\
  inject_token (PList []) (Some "t0k"%string) = Raise TypeError /\
  exists items',
    inject_token HEADERS (Some "t0k"%string) = Ok (PDict items') /\
    assoc "authorization" items' = Some (PStr "Bearer t0k").
Proof.
  split; [reflexivity|]. split.
  - exact (proj1 (proj2 (inject_token_spec (PList []))) "t0k"%string eq_refl
             ltac:(discriminate)).
  - destruct (proj1 (inject_token_spec
                       (PDict [("accept", PStr "*/*");
                               ("authorization", PStr "Bearer old")]))
                _ "t0k"%string eq_refl ltac:(discriminate))
      as (items' & I & A & _).
    exists items'. split; [exact I | exact A].
Defined.

(** ** Saving comes before rendering *)

Section SaveThenRender.

Context {json : JsonLib} {ics : IcsLib}.

Lemma create_ics_file_unopenable (events : list value) (event_data : value)
    (filename : string) (fs : filesystem) :
  forallb is_dict events = true ->
  In event_data events -> renders event_data = true ->
  can_write (fs filename) = false ->
  create_ics_file events filename fs = (Raise IOError, fs).
Proof.
  intros D I R U. destruct (add_events_dicts events [] D) as [cal A].
  pose proof (add_events_rendered _ _ I R _ _ A) as N.
  unfold create_ics_file, io_bind, io_lift, write_text. rewrite A.
  destruct cal; [contradiction|]. rewrite U. reflexivity.
Qed.

(** X28.  The store is saved before the calendar is rendered: when the
    save goes through, the calendar file cannot be opened and some event
    renders, the run ends with [IOError], and the store file holds the merged
    events all the same. *)
Theorem main_render_failure (raw_response_data : value) (fs : filesystem)
    (d0 d : store) (event_data : value) :
  fst (load_store fs) = Ok d0 ->
  truthy raw_response_data = true ->
  merge_step d0 raw_response_data = Ok d ->
  In event_data (store_values d) -> renders event_data = true ->
  can_write (fs CLEANED_DATA_FILE) = true ->
  json_dump_error (PList (store_values d)) = None ->
  can_write (fs ICS_FILE) = false ->
  main raw_response_data fs
  = (Raise IOError,
     fs_write CLEANED_DATA_FILE (json_dumps (PList (store_values d))) fs).
Proof.
  intros L T M I R W1 E W2.
  rewrite (main_saves_store _ _ _ _ L T M), W1, E. cbv zeta.
  apply (create_ics_file_unopenable _ event_data);
    [exact (merged_values_dicts _ _ _ _ L M) | exact I | exact R |].
  rewrite (fs_write_other _ _ _ _ files_differ). exact W2.
Qed.

End SaveThenRender.

Lemma main_render_failure_witness :
  main demo_payload locked_calendar
  = (Raise IOError,
     fs_write CLEANED_DATA_FILE (json_dumps (PList [demo_event])) locked_calendar).
Proof.
  exact (@main_render_failure json_fixture ics_fixture demo_payload
           locked_calendar [] [(HStr "x1", demo_event)] demo_event
           eq_refl eq_refl eq_refl (or_introl eq_refl) eq_refl
           eq_refl eq_refl eq_refl).
Defined.
